(** * LaneDetector.py: the lane-line isolation pipeline of [LaneIsolator]

    A shallow embedding of [src/LaneDetector.py].  The NumPy arrays of the
    source are records carrying a shape and a row-major buffer; the caller's
    frame lives in a store and is reached through a location, because
    [eq_histogram] overwrites it in place; the OpenCV routines the source
    calls ([cv2.equalizeHist], [cv2.cvtColor], [cv2.Sobel]) are an interface
    with the contract their documentation gives.

    Sample types: [uint8] samples are integers ([Z]); [float64] samples are
    idealised as real numbers ([R]).  The source does no arithmetic on
    [uint8] data (only comparisons and the constant [1] are used), so no
    wrap-around occurs anywhere in the pipeline.  The idealisation does not
    change a mask: the derivatives of 8-bit data are small integers, exact
    in [float64]; the rounded square root is monotone and exact at 900 and
    55225, the squares of the magnitude bounds; and the direction of two
    non-negative integers is 0, the [float64] nearest pi/2, or a value well
    inside the interval between them. *)

From stdpp Require Import base option list gmap.
From Stdlib Require Import ZArith Reals Lra Lia.

Set Default Proof Using "Type".

(** ** Element types of arrays *)

(** What the source needs from the element type of an array: the constants
    [0] and [1] that [np.zeros_like] and [... = 1] write, the comparison
    [<=] behind [>=] and [<=], and the test [== 1]. *)
Class Dtype (T : Type) := {
  zero : T;
  one : T;
  le : T -> T -> Prop;
  leb : T -> T -> bool;
  eqb : T -> T -> bool;
  leb_le : forall x y, leb x y = true <-> le x y;
  eqb_eq : forall x y, eqb x y = true <-> x = y;
  le_refl : forall x, le x x;
  le_trans : forall x y z, le x y -> le y z -> le x z;
  le_zero_one : le zero one;
  not_le_one_zero : ~ le one zero
}.

#[export] Program Instance uint8 : Dtype Z := {|
  zero := 0%Z; one := 1%Z; le := Z.le; leb := Z.leb; eqb := Z.eqb |}.
Next Obligation. intros; apply Z.leb_le. Qed.
Next Obligation. intros; apply Z.eqb_eq. Qed.
Next Obligation. intros; apply Z.le_refl. Qed.
Next Obligation. intros x y z; apply Z.le_trans. Qed.
Next Obligation. cbn; lia. Qed.
Next Obligation. cbn; lia. Qed.

Definition Rleb (x y : R) : bool := if Rle_dec x y then true else false.
Definition Reqb (x y : R) : bool := if Req_dec_T x y then true else false.

#[export] Program Instance float64 : Dtype R := {|
  zero := 0%R; one := 1%R; le := Rle; leb := Rleb; eqb := Reqb |}.
Next Obligation.
  intros x y; unfold Rleb; destruct (Rle_dec x y); split; intros; congruence.
Qed.
Next Obligation.
  intros x y; unfold Reqb; destruct (Req_dec_T x y); split; intros; congruence.
Qed.
Next Obligation. intros; apply Rle_refl. Qed.
Next Obligation. intros x y z; apply Rle_trans. Qed.
Next Obligation. cbn; lra. Qed.
Next Obligation. cbn; lra. Qed.

(** ** Arrays *)

(** A two-dimensional [ndarray]: its shape and its samples, row by row. *)
Record ndarray (T : Type) := NdArray {
  nrows : nat;
  ncols : nat;
  elems : list T
}.
Arguments NdArray {T} _ _ _.
Arguments nrows {T} _.
Arguments ncols {T} _.
Arguments elems {T} _.

Definition shape {T} (a : ndarray T) : nat * nat := (nrows a, ncols a).

(** The buffer has one sample per position. *)
Definition wf {T} (a : ndarray T) : Prop :=
  length (elems a) = nrows a * ncols a.

(** [a] has [h] rows and [w] columns, and a buffer to match. *)
Definition sized {T} (h w : nat) (a : ndarray T) : Prop :=
  shape a = (h, w) /\ wf a.

(** Elementwise operations.  NumPy raises on operands whose shapes do not
    fit; everywhere in the pipeline the operands of one operation have one
    shape (lemmas [sized_np_map2] and [pipeline_valid] below), so the
    operations are total here and the result takes the shape of the first
    operand. *)
Definition np_map {A B} (f : A -> B) (a : ndarray A) : ndarray B :=
  NdArray (nrows a) (ncols a) (f <$> elems a).

Definition np_map2 {A B C} (f : A -> B -> C) (a : ndarray A) (b : ndarray B)
  : ndarray C :=
  NdArray (nrows a) (ncols a) (zip_with f (elems a) (elems b)).

(** [np.zeros_like(a)] *)
Definition zeros_like `{Dtype T} (a : ndarray T) : ndarray T :=
  np_map (fun _ => zero) a.

(** [a >= v], [a <= v], [a == 1] *)
Definition np_ge `{Dtype T} (a : ndarray T) (v : T) : ndarray bool :=
  np_map (fun x => leb v x) a.
Definition np_le `{Dtype T} (a : ndarray T) (v : T) : ndarray bool :=
  np_map (fun x => leb x v) a.
Definition np_eq1 `{Dtype T} (a : ndarray T) : ndarray bool :=
  np_map (fun x => eqb x one) a.

(** [m1 & m2], [m1 | m2] on boolean arrays *)
Definition np_and (m1 m2 : ndarray bool) : ndarray bool := np_map2 andb m1 m2.
Definition np_or (m1 m2 : ndarray bool) : ndarray bool := np_map2 orb m1 m2.

(** [a[m] = 1]: the samples selected by the boolean array become [1]. *)
Definition set_ones `{Dtype T} (a : ndarray T) (m : ndarray bool) : ndarray T :=
  np_map2 (fun x (b : bool) => if b then one else x) a m.

(** Number of samples equal to [1]. *)
Definition count_ones `{Dtype T} (a : ndarray T) : nat :=
  length (filter (fun x => eqb x one = true) (elems a)).

(** All samples are [0] or [1]. *)
Definition binary `{Dtype T} (a : ndarray T) : Prop :=
  Forall (fun x => x = zero \/ x = one) (elems a).

(** ** The threshold utility *)

(** [LaneIsolator._within_threshold] *)
Definition _within_threshold `{Dtype T} (array : ndarray T) (threshold : T * T)
  : ndarray T :=
  let min_val := fst threshold in
  let max_val := snd threshold in
  let thresholded := zeros_like array in
  set_ones thresholded (np_and (np_ge array min_val) (np_le array max_val)).

(** What one sample becomes. *)
Definition in_range `{Dtype T} (threshold : T * T) (v : T) : bool :=
  leb (fst threshold) v && leb v (snd threshold).

Definition thresh1 `{Dtype T} (threshold : T * T) (v : T) : T :=
  if in_range threshold v then one else zero.

(** ** Exceptions, the store and the monad of the methods *)

(** The exceptions a run can end in.  [IndexError] and [ValueError] are
    NumPy's (an index out of bounds, shapes that do not fit), [cv2_error] is
    OpenCV's.  [UnboundLocation] keeps the store partial; a Python name
    always refers to a live object, so no run of the source reaches it.
    [InvalidInput] is the error kind of the specification's error taxonomy;
    no statement of the source raises it. *)
Inductive exn := IndexError | ValueError | cv2_error | UnboundLocation | InvalidInput.

Inductive result (A : Type) :=
  | Ok (a : A)
  | Raise (e : exn).
Arguments Ok {A} _.
Arguments Raise {A} _.

(** A three-dimensional [uint8] array of shape [(height, width, channels)]:
    one list of channel samples per pixel, row by row. *)
Record image := Image {
  height : nat;
  width : nat;
  channels : nat;
  pixels : list (list Z)
}.

Definition image_wf (a : image) : Prop :=
  length (pixels a) = height a * width a /\
  Forall (fun p => length p = channels a) (pixels a).

(** The input contract: a non-empty frame of three channels. *)
Definition valid_frame (a : image) : Prop :=
  image_wf a /\ channels a = 3 /\ 0 < height a /\ 0 < width a.

Definition nonempty {T} (a : ndarray T) : Prop := 0 < nrows a /\ 0 < ncols a.

(** Array objects are reached through locations; the store maps each
    location to the current content of its buffer. *)
Definition loc := nat.
Abbreviation store := (gmap loc image).

(** A method runs on the store and either returns or raises; what it wrote
    before raising stays written. *)
Definition M (A : Type) : Type := store -> result A * store.

Definition ret {A} (a : A) : M A := fun s => (Ok a, s).
Definition bind {A B} (m : M A) (k : A -> M B) : M B :=
  fun s => match m s with
           | (Ok a, s') => k a s'
           | (Raise e, s') => (Raise e, s')
           end.
Definition lift {A} (r : result A) : M A := fun s => (r, s).

Declare Scope py_scope.
Delimit Scope py_scope with py.
Notation "x <- m ;; k" := (bind m (fun x => k))
  (at level 100, m at next level, right associativity) : py_scope.
Notation "m ;; k" := (bind m (fun _ => k))
  (at level 100, right associativity) : py_scope.
Open Scope py_scope.

(** Reading and overwriting the buffer behind a location. *)
Definition load (l : loc) : M image :=
  fun s => match s !! l with
           | Some a => (Ok a, s)
           | None => (Raise UnboundLocation, s)
           end.
Definition write (l : loc) (a : image) : M unit :=
  fun s => (Ok tt, <[l:=a]> s).

(** The exception-only fragment, for code that touches no buffer. *)
Definition rbind {A B} (r : result A) (k : A -> result B) : result B :=
  match r with
  | Ok a => k a
  | Raise e => Raise e
  end.

(** The samples of channel [c], and the pixels with channel [c] replaced. *)
Definition chan (c : nat) (ps : list (list Z)) : list Z :=
  (fun p => default 0%Z (p !! c)) <$> ps.

Definition put_chan (c : nat) (ps : list (list Z)) (es : list Z) : list (list Z) :=
  zip_with (fun p x => <[c:=x]> p) ps es.

(** [img[:, :, c]] read: a [height x width] array of the samples of channel
    [c]; an [IndexError] when the frame has no such channel. *)
Definition get_channel (a : image) (c : nat) : result (ndarray Z) :=
  if decide (c < channels a) then
    Ok (NdArray (height a) (width a) (chan c (pixels a)))
  else Raise IndexError.

(** [img[:, :, c] = v]: channel [c] of every pixel is overwritten, the rest
    of the frame stays.  NumPy also accepts values it can broadcast from a
    smaller shape; the source only assigns arrays of the frame's own size,
    so every other shape is reported as the [ValueError] of a failed
    broadcast. *)
Definition set_channel (a : image) (c : nat) (v : ndarray Z) : result image :=
  if decide (c < channels a) then
    if decide (shape v = (height a, width a)) then
      Ok (Image (height a) (width a) (channels a) (put_chan c (pixels a) (elems v)))
    else Raise ValueError
  else Raise IndexError.

(** ** The OpenCV routines used by the source *)

Inductive ColorConversionCode := COLOR_BGR2LUV | COLOR_BGR2HLS | COLOR_BGR2Lab.

(** The interface of the image library, with the contract of its
    documentation: on the arrays the pipeline passes, every routine returns
    an array of the size of its source.  [cvtColor_BGR2GRAY] is [cvtColor]
    with [COLOR_BGR2GRAY], whose result has two dimensions; [Sobel_64F] is
    [Sobel] with depth [CV_64F] and arguments [dx], [dy], [ksize]. *)
Class CV2 := {
  equalizeHist : ndarray Z -> result (ndarray Z);
  cvtColor : image -> ColorConversionCode -> result image;
  cvtColor_BGR2GRAY : image -> result (ndarray Z);
  Sobel_64F : ndarray Z -> nat -> nat -> nat -> result (ndarray R);
  equalizeHist_spec : forall a, wf a -> nonempty a ->
    exists b, equalizeHist a = Ok b /\ shape b = shape a /\ wf b;
  cvtColor_spec : forall a code, valid_frame a ->
    exists b, cvtColor a code = Ok b /\ valid_frame b /\
              height b = height a /\ width b = width a;
  cvtColor_BGR2GRAY_spec : forall a, valid_frame a ->
    exists g, cvtColor_BGR2GRAY a = Ok g /\ shape g = (height a, width a) /\ wf g;
  Sobel_64F_spec : forall g dx dy, wf g -> nonempty g -> dx + dy = 1 ->
    exists d, Sobel_64F g dx dy 3 = Ok d /\ shape d = shape g /\ wf d
}.

(** ** The class [LaneIsolator] *)

(** The attributes [__init__] sets.  [camera] refers to the camera object
    passed at construction ([None] by default); no method reads it. *)
Record LaneIsolator := {
  camera : option loc;
  L_THRESHOLD : Z * Z;
  S_THRESHOLD : Z * Z;
  B_THRESHOLD : Z * Z;
  MAG_THRESHOLD : R * R;
  DIR_THRESHOLD : R * R
}.

(** [LaneIsolator.__init__] *)
Definition __init__ (lane_camera : option loc) : LaneIsolator := {|
  camera := lane_camera;
  L_THRESHOLD := (120, 255)%Z;
  S_THRESHOLD := (105, 255)%Z;
  B_THRESHOLD := (180, 210)%Z;
  MAG_THRESHOLD := (30, 235)%R;
  DIR_THRESHOLD := (0, PI / 2)%R
|}.

(** [np.arctan2] on reals. *)
Definition arctan2 (y x : R) : R :=
  if Rlt_dec 0 x then atan (y / x)
  else if Rlt_dec x 0 then
    (if Rle_dec 0 y then atan (y / x) + PI else atan (y / x) - PI)
  else if Rlt_dec 0 y then PI / 2
  else if Rlt_dec y 0 then - (PI / 2)
  else 0.

Definition np_square (a : ndarray R) : ndarray R := np_map (fun x => x * x)%R a.
Definition np_add (a b : ndarray R) : ndarray R := np_map2 Rplus a b.
Definition np_sqrt (a : ndarray R) : ndarray R := np_map sqrt a.
Definition np_absolute (a : ndarray R) : ndarray R := np_map Rabs a.
Definition np_arctan2 (a b : ndarray R) : ndarray R := np_map2 arctan2 a b.

Section Pipeline.
Context {cv2 : CV2}.
Variable self : LaneIsolator.

(** One line of [eq_histogram]:
    [img[:, :, c] = cv2.equalizeHist(img[:, :, c])] *)
Definition equalize_channel (img : loc) (c : nat) : M unit :=
  a <- load img ;;
  v <- lift (get_channel a c) ;;
  e <- lift (equalizeHist v) ;;
  a' <- load img ;;
  b <- lift (set_channel a' c e) ;;
  write img b.

(** [LaneIsolator.eq_histogram]: the frame is overwritten channel by
    channel, and the location passed in is what is returned. *)
Definition eq_histogram (img : loc) : M loc :=
  equalize_channel img 0 ;;
  equalize_channel img 1 ;;
  equalize_channel img 2 ;;
  ret img.

(** [cv2.cvtColor(img, code)[:, :, c]] *)
Definition converted_channel (img : loc) (code : ColorConversionCode) (c : nat)
  : M (ndarray Z) :=
  a <- load img ;;
  b <- lift (cvtColor a code) ;;
  lift (get_channel b c).

(** [LaneIsolator.color_threshold] *)
Definition color_threshold (img : loc) : M (ndarray Z) :=
  l_chan <- converted_channel img COLOR_BGR2LUV 0 ;;
  s_chan <- converted_channel img COLOR_BGR2HLS 2 ;;
  b_chan <- converted_channel img COLOR_BGR2Lab 2 ;;
  let l_thresh := _within_threshold l_chan (L_THRESHOLD self) in
  let s_thresh := _within_threshold s_chan (S_THRESHOLD self) in
  let b_thresh := _within_threshold b_chan (B_THRESHOLD self) in
  let selection := zeros_like l_chan in
  ret (set_ones selection
         (np_or (np_and (np_eq1 l_thresh) (np_eq1 s_thresh)) (np_eq1 b_thresh))).

(** [LaneIsolator._gradients], with the default [kernel=3] *)
Definition _gradients (gray : ndarray Z) : result (ndarray R * ndarray R) :=
  rbind (Sobel_64F gray 1 0 3) (fun grad_x =>
  rbind (Sobel_64F gray 0 1 3) (fun grad_y =>
  Ok (grad_x, grad_y))).

(** [LaneIsolator._gradient_mag] *)
Definition _gradient_mag (gray : ndarray Z) : result (ndarray R) :=
  rbind (_gradients gray) (fun '(grad_x, grad_y) =>
  Ok (np_sqrt (np_add (np_square grad_x) (np_square grad_y)))).

(** [LaneIsolator._gradient_dir] *)
Definition _gradient_dir (gray : ndarray Z) : result (ndarray R) :=
  rbind (_gradients gray) (fun '(grad_x, grad_y) =>
  let grad_x := np_absolute grad_x in
  let grad_y := np_absolute grad_y in
  Ok (np_arctan2 grad_y grad_x)).

(** [LaneIsolator.gradient_threshold] *)
Definition gradient_threshold (img : loc) : M (ndarray R) :=
  a <- load img ;;
  gray <- lift (cvtColor_BGR2GRAY a) ;;
  magnitude <- lift (_gradient_mag gray) ;;
  direction <- lift (_gradient_dir gray) ;;
  let mag_thresh := _within_threshold magnitude (MAG_THRESHOLD self) in
  let dir_thresh := _within_threshold direction (DIR_THRESHOLD self) in
  let selection := zeros_like magnitude in
  ret (set_ones selection (np_and (np_eq1 mag_thresh) (np_eq1 dir_thresh))).

(** [LaneIsolator.isolate_lines] *)
Definition isolate_lines (img : loc) : M (ndarray Z) :=
  equalized <- eq_histogram img ;;
  color_select <- color_threshold equalized ;;
  grad_select <- gradient_threshold equalized ;;
  let selection := zeros_like color_select in
  ret (set_ones selection (np_or (np_eq1 color_select) (np_eq1 grad_select))).

End Pipeline.

(** What one line of [eq_histogram] makes of the frame content [a]. *)
Definition channel_equalized `{CV2} (a : image) (c : nat) : result image :=
  rbind (get_channel a c) (fun v =>
  rbind (equalizeHist v) (fun e => set_channel a c e)).

(** [b] is the frame [a] after equalization: same size, and each of the
    three channels is what [cv2.equalizeHist] returns on that channel of
    [a]. *)
Definition equalized_from `{CV2} (a b : image) : Prop :=
  height b = height a /\ width b = width a /\ channels b = channels a /\
  image_wf b /\
  forall c, c < 3 ->
    exists e, equalizeHist (NdArray (height a) (width a) (chan c (pixels a))) = Ok e /\
              chan c (pixels b) = elems e.

(** ** Notions used in the statements *)

(** The colour rule and the gradient rule on the samples of one pixel. *)
Definition color_rule (self : LaneIsolator) (l s b : Z) : bool :=
  in_range (L_THRESHOLD self) l && in_range (S_THRESHOLD self) s
  || in_range (B_THRESHOLD self) b.

Definition gradient_rule (self : LaneIsolator) (mag dir : R) : bool :=
  in_range (MAG_THRESHOLD self) mag && in_range (DIR_THRESHOLD self) dir.

Definition bit `{Dtype T} (b : bool) : T := if b then one else zero.

(** Outcomes related by [R] on returned values, equal on exceptions. *)
Definition result_rel {A} (R : A -> A -> Prop) (r1 r2 : result A) : Prop :=
  match r1, r2 with
  | Ok a1, Ok a2 => R a1 a2
  | Raise e1, Raise e2 => e1 = e2
  | _, _ => False
  end.

(** The buffer behind [l1] in [s1] has the content of the buffer behind
    [l2] in [s2]. *)
Definition same_frame (l1 l2 : loc) (s1 s2 : store) : Prop := s1 !! l1 = s2 !! l2.

(** Started on frames of equal content, the two computations end in related
    outcomes and leave frames of equal content. *)
Definition sim {A} (l1 l2 : loc) (R : A -> A -> Prop) (m1 m2 : M A) : Prop :=
  forall s1 s2, same_frame l1 l2 s1 s2 ->
    result_rel R (m1 s1).1 (m2 s2).1 /\ same_frame l1 l2 (m1 s1).2 (m2 s2).2.

(** The range [th1] lies inside the range [th2]. *)
Definition range_sub `{Dtype T} (th1 th2 : T * T) : Prop :=
  le (fst th2) (fst th1) /\ le (snd th1) (snd th2).

(** Every threshold range of [self1] lies inside the one of [self2]. *)
Definition config_sub (self1 self2 : LaneIsolator) : Prop :=
  range_sub (L_THRESHOLD self1) (L_THRESHOLD self2) /\
  range_sub (S_THRESHOLD self1) (S_THRESHOLD self2) /\
  range_sub (B_THRESHOLD self1) (B_THRESHOLD self2) /\
  range_sub (MAG_THRESHOLD self1) (MAG_THRESHOLD self2) /\
  range_sub (DIR_THRESHOLD self1) (DIR_THRESHOLD self2).

(** Two frames of the same height, width and number of channels. *)
Definition same_dims (a b : image) : Prop :=
  height b = height a /\ width b = width a /\ channels b = channels a.

(** What a run that only writes the buffer behind [img] may do to the
    store: every other location keeps its content, and the buffer behind
    [img] keeps its dimensions. *)
Definition frame_only (img : loc) (s s' : store) : Prop :=
  (forall l, l <> img -> s' !! l = s !! l) /\
  match s !! img with
  | Some a => exists b, s' !! img = Some b /\ same_dims a b
  | None => s' !! img = None
  end.

(** Every sample set in [m1] is set in [m2], two maps with as many
    samples. *)
Definition mask_sub `{Dtype T} (m1 m2 : ndarray T) : Prop :=
  length (elems m1) = length (elems m2) /\
  forall i x y, elems m1 !! i = Some x -> elems m2 !! i = Some y ->
                eqb x one = true -> eqb y one = true.

(** ** A reference implementation of the interface

    An executable implementation, for running the pipeline on concrete
    frames.  [equalizeHist] and the Sobel derivative follow OpenCV's
    algorithms; OpenCV's colour conversions go through floating-point
    tables, which are replaced here by integer formulas of the same shape
    (a per-pixel map that accepts three or four source channels).  The
    theorems on the pipeline hold for every implementation of [CV2]. *)
Module Ref.

(** [hist[v]], and the sum of [hist[j]] for [lo < j <= v] *)
Definition hist (l : list Z) (v : Z) : Z :=
  Z.of_nat (length (filter (fun x => x = v) l)).
Definition hist_sum (l : list Z) (lo v : Z) : Z :=
  Z.of_nat (length (filter (fun x => (lo < x <= v)%Z) l)).

(** [p / q] rounded to the nearest integer, ties to even ([cvRound]) *)
Definition round_div (p q : Z) : Z :=
  let d := (p / q)%Z in
  let r := (p mod q)%Z in
  if (2 * r <? q)%Z then d
  else if (q <? 2 * r)%Z then (d + 1)%Z
  else if Z.even d then d else (d + 1)%Z.

Definition saturate_uchar (z : Z) : Z := Z.max 0 (Z.min 255 z).

(** The look-up table of [cv::equalizeHist]: [i] is the first non-empty
    bin; a source with a single grey level is set to that level; otherwise
    level [v] goes to the scaled sum of the bins in [(i, v]]. *)
Definition equalize_lut (l : list Z) (v : Z) : Z :=
  let i := foldr Z.min 255%Z l in
  let total := Z.of_nat (length l) in
  if (hist l i =? total)%Z then i
  else saturate_uchar (round_div (hist_sum l i v * 255) (total - hist l i)).

Definition is_empty {T} (a : ndarray T) : bool :=
  (nrows a =? 0) || (ncols a =? 0).

Definition equalizeHist (a : ndarray Z) : result (ndarray Z) :=
  if is_empty a then Raise cv2_error
  else Ok (np_map (equalize_lut (elems a)) a).

(** Per-pixel conversions from [b, g, r]. *)
Definition luma (b g r : Z) : Z := ((1868 * b + 9617 * g + 4899 * r + 8192) / 16384)%Z.
Definition vmax (b g r : Z) : Z := Z.max b (Z.max g r).
Definition vmin (b g r : Z) : Z := Z.min b (Z.min g r).
Definition saturation (b g r : Z) : Z :=
  let s := (vmax b g r + vmin b g r)%Z in
  let d := (vmax b g r - vmin b g r)%Z in
  if (d =? 0)%Z then 0%Z
  else if (s <? 256)%Z then round_div (255 * d) s
  else round_div (255 * d) (510 - s).

Definition convert_pixel (code : ColorConversionCode) (b g r : Z) : list Z :=
  match code with
  | COLOR_BGR2LUV =>
      [luma b g r; saturate_uchar (96 + (r - g) / 2); saturate_uchar (136 + (g - b) / 2)]
  | COLOR_BGR2HLS => [0; (vmax b g r + vmin b g r + 1) / 2; saturation b g r]%Z
  | COLOR_BGR2Lab =>
      [luma b g r; saturate_uchar (128 + (r - g) / 2);
       saturate_uchar (128 + (r + g - 2 * b) / 4)]
  end.

Definition bgr (p : list Z) : option (Z * Z * Z) :=
  match p with
  | [b; g; r] | [b; g; r; _] => Some (b, g, r)
  | _ => None
  end.

Definition is_empty_image (a : image) : bool :=
  (height a =? 0) || (width a =? 0).

Definition cvtColor (a : image) (code : ColorConversionCode) : result image :=
  if is_empty_image a then Raise cv2_error
  else match mapM bgr (pixels a) with
       | Some ps => Ok (Image (height a) (width a) 3
                          ((fun '(b, g, r) => convert_pixel code b g r) <$> ps))
       | None => Raise cv2_error
       end.

Definition cvtColor_BGR2GRAY (a : image) : result (ndarray Z) :=
  if is_empty_image a then Raise cv2_error
  else match mapM bgr (pixels a) with
       | Some ps => Ok (NdArray (height a) (width a)
                          ((fun '(b, g, r) => luma b g r) <$> ps))
       | None => Raise cv2_error
       end.

(** Border handling [BORDER_REFLECT_101] of an index into [0, n). *)
Definition reflect101 (n i : Z) : Z :=
  if (n =? 1)%Z then 0%Z
  else if (i <? 0)%Z then (- i)%Z
  else if (n <=? i)%Z then (2 * n - 2 - i)%Z
  else i.

Definition at_ (g : ndarray Z) (y x : Z) : Z :=
  let h := Z.of_nat (nrows g) in
  let w := Z.of_nat (ncols g) in
  default 0%Z (elems g !! Z.to_nat (reflect101 h y * w + reflect101 w x)).

(** The 3x3 Sobel derivatives. *)
Definition sobel_x (g : ndarray Z) (y x : Z) : Z :=
  ((at_ g (y - 1) (x + 1) - at_ g (y - 1) (x - 1))
   + 2 * (at_ g y (x + 1) - at_ g y (x - 1))
   + (at_ g (y + 1) (x + 1) - at_ g (y + 1) (x - 1)))%Z.
Definition sobel_y (g : ndarray Z) (y x : Z) : Z :=
  ((at_ g (y + 1) (x - 1) - at_ g (y - 1) (x - 1))
   + 2 * (at_ g (y + 1) x - at_ g (y - 1) x)
   + (at_ g (y + 1) (x + 1) - at_ g (y - 1) (x + 1)))%Z.

(** The array of [f y x] over all positions of an [h x w] grid. *)
Definition tabulate {T} (h w : nat) (f : Z -> Z -> T) : ndarray T :=
  NdArray h w
    (y ← seq 0 h; (fun x => f (Z.of_nat y) (Z.of_nat x)) <$> seq 0 w).

Definition Sobel_64F (g : ndarray Z) (dx dy ksize : nat) : result (ndarray R) :=
  if is_empty g then Raise cv2_error
  else match dx, dy, ksize with
       | 1, 0, 3 => Ok (tabulate (nrows g) (ncols g) (fun y x => IZR (sobel_x g y x)))
       | 0, 1, 3 => Ok (tabulate (nrows g) (ncols g) (fun y x => IZR (sobel_y g y x)))
       | _, _, _ => Raise cv2_error
       end.

End Ref.

(** ** The reference implementation meets the interface *)

Lemma Ref_is_empty_false {T} (a : ndarray T) : nonempty a -> Ref.is_empty a = false.
Proof.
  intros [Hr Hc]. unfold Ref.is_empty.
  apply orb_false_iff. split; apply Nat.eqb_neq; lia.
Qed.

Lemma Ref_is_empty_image_false a : valid_frame a -> Ref.is_empty_image a = false.
Proof.
  intros (_ & _ & Hh & Hw). unfold Ref.is_empty_image.
  apply orb_false_iff. split; apply Nat.eqb_neq; lia.
Qed.

Lemma Ref_equalizeHist_spec (a : ndarray Z) :
  wf a -> nonempty a ->
  exists b, Ref.equalizeHist a = Ok b /\ shape b = shape a /\ wf b.
Proof.
  intros Hwf Hne. unfold Ref.equalizeHist. rewrite Ref_is_empty_false by done.
  eexists. split; [done|]. split; [done|].
  unfold wf in *; cbn. by rewrite length_fmap.
Qed.

Lemma Ref_mapM_bgr (ps : list (list Z)) :
  Forall (fun p => length p = 3) ps ->
  exists qs, mapM Ref.bgr ps = Some qs /\ length qs = length ps.
Proof.
  induction 1 as [|p ps Hp _ (qs & Hqs & Hlen)]; [by exists []|].
  destruct p as [|b [|g [|r [|]]]]; try done.
  exists ((b, g, r) :: qs). cbn. rewrite Hqs. cbn. split; [done|]. by rewrite Hlen.
Qed.

Lemma Ref_cvtColor_spec a code :
  valid_frame a ->
  exists b, Ref.cvtColor a code = Ok b /\ valid_frame b /\
            height b = height a /\ width b = width a.
Proof.
  intros Hv. pose proof Hv as ((Hlen & Hpx) & Hch & Hh & Hw).
  unfold Ref.cvtColor. rewrite Ref_is_empty_image_false by done.
  rewrite Hch in Hpx. destruct (Ref_mapM_bgr _ Hpx) as (qs & -> & Hqs).
  eexists. split; [done|]. split; [|done].
  split_and!; cbn; try done. split; cbn.
  - rewrite length_fmap. congruence.
  - apply Forall_fmap, Forall_true. intros [[b g] r]. by destruct code.
Qed.

Lemma Ref_cvtColor_BGR2GRAY_spec a :
  valid_frame a ->
  exists g, Ref.cvtColor_BGR2GRAY a = Ok g /\ shape g = (height a, width a) /\ wf g.
Proof.
  intros Hv. pose proof Hv as ((Hlen & Hpx) & Hch & Hh & Hw).
  unfold Ref.cvtColor_BGR2GRAY. rewrite Ref_is_empty_image_false by done.
  rewrite Hch in Hpx. destruct (Ref_mapM_bgr _ Hpx) as (qs & -> & Hqs).
  eexists. split; [done|]. split; [done|].
  unfold wf; cbn. rewrite length_fmap. congruence.
Qed.

Lemma length_bind_const {A B} (g : A -> list B) (l : list A) w :
  (forall y, length (g y) = w) -> length (l ≫= g) = length l * w.
Proof.
  intros Hg. induction l as [|y l IH]; [done|].
  rewrite bind_cons, length_app, IH, Hg. cbn. lia.
Qed.

Lemma Ref_tabulate_sized {T} h w (f : Z -> Z -> T) : sized h w (Ref.tabulate h w f).
Proof.
  split; [done|]. unfold wf, Ref.tabulate; cbn.
  rewrite (length_bind_const _ _ w), length_seq; [done|].
  intros y. by rewrite length_fmap, length_seq.
Qed.

Lemma Ref_Sobel_64F_spec (g : ndarray Z) dx dy :
  wf g -> nonempty g -> dx + dy = 1 ->
  exists d, Ref.Sobel_64F g dx dy 3 = Ok d /\ shape d = shape g /\ wf d.
Proof.
  intros Hwf Hne Hd. unfold Ref.Sobel_64F. rewrite Ref_is_empty_false by done.
  destruct dx as [|[|dx]], dy as [|[|dy]]; try lia;
    (eexists; split; [done|]; apply Ref_tabulate_sized).
Qed.

(** OpenCV, as far as the pipeline uses it. *)
Definition opencv_ref : CV2 := {|
  equalizeHist := Ref.equalizeHist;
  cvtColor := Ref.cvtColor;
  cvtColor_BGR2GRAY := Ref.cvtColor_BGR2GRAY;
  Sobel_64F := Ref.Sobel_64F;
  equalizeHist_spec := Ref_equalizeHist_spec;
  cvtColor_spec := Ref_cvtColor_spec;
  cvtColor_BGR2GRAY_spec := Ref_cvtColor_BGR2GRAY_spec;
  Sobel_64F_spec := Ref_Sobel_64F_spec
|}.

(** ** Sample frames *)

(** A 2x2 frame with a bright right column, and the store holding it. *)
Definition frame0 : image :=
  Image 2 2 3 [[10; 10; 10]; [250; 240; 230]; [20; 20; 20]; [255; 255; 255]]%Z.

Definition store0 : store := {[ 0 := frame0 ]}.

(** A second store, holding the same frame at another location. *)
Definition store1 : store := {[ 3 := Image 1 1 3 [[1; 2; 3]]%Z; 5 := frame0 ]}.

(** A 1x2 frame with two channels only. *)
Definition frame_2ch : image := Image 1 2 2 [[10; 20]; [30; 40]]%Z.

(** The specification's reading of an invalid frame: empty, or a channel
    count other than three. *)
Definition invalid_frame (a : image) : Prop :=
  height a = 0 \/ width a = 0 \/ channels a <> 3.

(** A uniformly white 2x2 frame. *)
Definition frame_white : image :=
  Image 2 2 3 [[255; 255; 255]; [255; 255; 255]; [255; 255; 255]; [255; 255; 255]]%Z.

(** A 1x2 frame with a fourth channel. *)
Definition frame_bgra : image :=
  Image 1 2 4 [[10; 20; 30; 255]; [40; 50; 60; 128]]%Z.

(** A configuration with narrower ranges than the default one. *)
Definition narrow_config : LaneIsolator := {|
  camera := None;
  L_THRESHOLD := (150, 250)%Z;
  S_THRESHOLD := (120, 255)%Z;
  B_THRESHOLD := (185, 200)%Z;
  MAG_THRESHOLD := (50, 200)%R;
  DIR_THRESHOLD := (0, 1)%R
|}.

(** [frame0] with another third channel. *)
Definition frame0_red : image :=
  Image 2 2 3 [[10; 10; 99]; [250; 240; 0]; [20; 20; 7]; [255; 255; 180]]%Z.

(** * Properties *)

(** ** Element types *)

Lemma zero_ne_one `{Dtype T} : (zero : T) <> one.
Proof. intros E. apply (not_le_one_zero (T:=T)). rewrite E. apply le_refl. Qed.

Lemma eqb_refl `{Dtype T} (x : T) : eqb x x = true.
Proof. by apply eqb_eq. Qed.

Lemma eqb_zero_one `{Dtype T} : eqb (zero : T) one = false.
Proof.
  destruct (eqb (zero : T) one) eqn:E; [|done].
  apply eqb_eq in E. by destruct (zero_ne_one (T:=T)).
Qed.


(** ** Arrays and the threshold utility *)

Section Threshold.
Context `{Dtype T}.
Implicit Types (a : ndarray T) (th : T * T) (v : T).

Lemma in_range_le th v :
  in_range th v = true <-> le (fst th) v /\ le v (snd th).
Proof. unfold in_range. rewrite andb_true_iff, !leb_le. tauto. Qed.

Lemma thresh1_one th v : thresh1 th v = one <-> in_range th v = true.
Proof.
  unfold thresh1. destruct (in_range th v); split; try done.
  intros E. by destruct (zero_ne_one (T:=T)).
Qed.

Lemma thresh1_zero th v : thresh1 th v = zero <-> in_range th v = false.
Proof.
  unfold thresh1. destruct (in_range th v); split; try done.
  intros E. by destruct (zero_ne_one (T:=T)).
Qed.

Lemma thresh1_binary th v : thresh1 th v = zero \/ thresh1 th v = one.
Proof. unfold thresh1. destruct (in_range th v); auto. Qed.

Lemma threshold_zip th (l : list T) :
  zip_with (fun x (b : bool) => if b then one else x)
    ((fun _ => zero) <$> l)
    (zip_with andb ((fun x => leb (fst th) x) <$> l) ((fun x => leb x (snd th)) <$> l))
  = thresh1 th <$> l.
Proof. induction l as [|x l IH]; [done|]. cbn. by rewrite IH. Qed.

(** The utility is a map of [thresh1] over the samples. *)
Lemma within_threshold_map a th :
  _within_threshold a th = np_map (thresh1 th) a.
Proof.
  unfold _within_threshold, set_ones, np_and, np_ge, np_le, zeros_like, np_map2, np_map.
  cbn. by rewrite threshold_zip.
Qed.

Lemma within_threshold_shape a th : shape (_within_threshold a th) = shape a.
Proof. by rewrite within_threshold_map. Qed.

Lemma within_threshold_wf a th : wf a -> wf (_within_threshold a th).
Proof. rewrite within_threshold_map. unfold wf; cbn. by rewrite length_fmap. Qed.

Lemma within_threshold_binary a th : binary (_within_threshold a th).
Proof.
  rewrite within_threshold_map. unfold binary; cbn.
  apply Forall_fmap, Forall_true. intros x. apply thresh1_binary.
Qed.

Lemma within_threshold_lookup a th i :
  elems (_within_threshold a th) !! i = thresh1 th <$> (elems a !! i).
Proof. rewrite within_threshold_map. cbn. apply list_lookup_fmap. Qed.

(** [x == 1] on a thresholded sample is the range test. *)
Lemma eqb_thresh1 th v : eqb (thresh1 th v) one = in_range th v.
Proof.
  unfold thresh1. destruct (in_range th v); [apply eqb_refl | apply eqb_zero_one].
Qed.

Lemma count_thresh_le th1 th2 (l : list T) :
  (forall x, in_range th1 x = true -> in_range th2 x = true) ->
  length (filter (fun x => eqb x one = true) (thresh1 th1 <$> l))
  <= length (filter (fun x => eqb x one = true) (thresh1 th2 <$> l)).
Proof.
  intros sub. induction l as [|x l IH]; [done|].
  rewrite !fmap_cons, !filter_cons, !eqb_thresh1.
  specialize (sub x). destruct (in_range th1 x).
  - rewrite sub by done. rewrite !decide_True by done. cbn. lia.
  - rewrite (decide_False (P:=false = true)) by done.
    case_decide; cbn; lia.
Qed.

(** Widening a range keeps every sample that was in it. *)
Lemma in_range_widen (low1 high1 low2 high2 v : T) :
  le low2 low1 -> le high1 high2 ->
  in_range (low1, high1) v = true -> in_range (low2, high2) v = true.
Proof.
  rewrite !in_range_le; cbn. intros Hl Hh [? ?].
  split; eapply le_trans; eauto.
Qed.

End Threshold.

(** C4: for every single-channel map (integer samples in the instance
    [uint8], floating-point samples in the instance [float64]) and every
    range [low, high], [_within_threshold] returns a map of the same shape
    with as many samples, in which a sample is 1 exactly when the input
    sample [v] at the same position satisfies [low <= v <= high], and 0
    exactly when it does not. *)
Theorem within_threshold_spec `{Dtype T} (array : ndarray T) (low high : T) :
  let out := _within_threshold array (low, high) in
  shape out = shape array /\
  length (elems out) = length (elems array) /\
  forall i v, elems array !! i = Some v ->
    (elems out !! i = Some one <-> le low v /\ le v high) /\
    (elems out !! i = Some zero <-> ~ (le low v /\ le v high)).
Proof.
  intros out; subst out. split; [apply within_threshold_shape|]. split.
  { rewrite within_threshold_map; cbn. apply length_fmap. }
  intros i v Hv. rewrite within_threshold_lookup, Hv; cbn.
  rewrite <- (in_range_le (low, high) v). split.
  - rewrite <- thresh1_one. split; congruence.
  - rewrite not_true_iff_false, <- thresh1_zero. split; congruence.
Qed.

(** C5: when [low2 <= low1] and [high1 <= high2], every sample set under
    the range [low1, high1] is also set under [low2, high2], and the number
    of samples set under the wider range is at least the number set under
    the narrower one. *)
Theorem within_threshold_widen `{Dtype T} (m : ndarray T) (low1 high1 low2 high2 : T) :
  le low2 low1 -> le high1 high2 ->
  (forall i, elems (_within_threshold m (low1, high1)) !! i = Some one ->
             elems (_within_threshold m (low2, high2)) !! i = Some one) /\
  count_ones (_within_threshold m (low1, high1))
  <= count_ones (_within_threshold m (low2, high2)).
Proof.
  intros Hl Hh. split.
  - intros i. rewrite !within_threshold_lookup.
    destruct (elems m !! i) as [v|]; cbn; [|done].
    intros E. f_equal. apply thresh1_one.
    apply (in_range_widen low1 high1); [done..|].
    apply thresh1_one. congruence.
  - unfold count_ones. rewrite !within_threshold_map; cbn.
    apply count_thresh_le. intros x. by apply in_range_widen.
Qed.

Lemma within_threshold_widen_witness :
  let m := NdArray 2 2 [100; 130; 200; 255]%Z in
  (forall i, elems (_within_threshold m (120, 210)%Z) !! i = Some 1%Z ->
             elems (_within_threshold m (105, 255)%Z) !! i = Some 1%Z) /\
  count_ones (_within_threshold m (120, 210)%Z)
  <= count_ones (_within_threshold m (105, 255)%Z).
Proof.
  intros m.
  refine (within_threshold_widen (T:=Z) m 120%Z 210%Z 105%Z 255%Z _ _); cbn; lia.
Defined.

(** C7, as the specification states it, fails: the sample 0 lies in the
    range [0, 1], so thresholding the one-sample map [0] with that range
    gives the map [1]. *)
Lemma within_threshold_01_not_identity :
  let m := NdArray 1 1 [0%Z] in
  binary m /\
  _within_threshold m (0, 1)%Z = NdArray 1 1 [1%Z] /\
  _within_threshold m (0, 1)%Z <> m.
Proof.
  cbn. split; [|split].
  - by repeat constructor.
  - reflexivity.
  - discriminate.
Qed.

(** C7, amended: on a map whose samples all lie in {0, 1}, the range [1, 1]
    returns the map unchanged, while the range [0, 1] returns the map of the
    same shape whose samples are all 1. *)
Theorem within_threshold_binary_map `{Dtype T} (m : ndarray T) :
  binary m ->
  _within_threshold m (one, one) = m /\
  _within_threshold m (zero, one) = np_map (fun _ => one) m.
Proof.
  intros Hb. rewrite !within_threshold_map. destruct m as [h w l].
  unfold np_map, binary in *; cbn in *. split; f_equal.
  - induction Hb as [|x l [->| ->] _ IH]; [done|..]; cbn; rewrite IH; f_equal.
    + apply thresh1_zero. apply not_true_iff_false.
      rewrite in_range_le; cbn. intros [? _]. by apply (not_le_one_zero (T:=T)).
    + apply thresh1_one. rewrite in_range_le; cbn. split; apply le_refl.
  - apply list_eq; intros i. rewrite !list_lookup_fmap.
    destruct (l !! i) as [x|] eqn:E; cbn; [|done]. f_equal.
    apply thresh1_one. rewrite in_range_le; cbn.
    rewrite Forall_lookup in Hb. destruct (Hb i x E) as [-> | ->];
      split; first [apply le_refl | apply le_zero_one].
Qed.

Lemma within_threshold_binary_map_witness :
  let m := NdArray 2 2 [0; 1; 1; 0]%Z in
  _within_threshold m (1, 1)%Z = m /\
  _within_threshold m (0, 1)%Z = np_map (fun _ => 1%Z) m.
Proof.
  intros m. refine (within_threshold_binary_map (T:=Z) m _).
  repeat first [apply List.Forall_nil
               | apply List.Forall_cons; [first [by left | by right]|]].
Defined.

(** The utility on the boundary of a range. *)
Example within_threshold_boundaries :
  _within_threshold (NdArray 1 4 [119; 120; 255; 256]%Z) (120, 255)%Z
  = NdArray 1 4 [0; 1; 1; 0]%Z.
Proof. reflexivity. Qed.

(** ** Running the monad *)

Lemma bind_ok {A B} (m : M A) (k : A -> M B) s a s' :
  m s = (Ok a, s') -> bind m k s = k a s'.
Proof. unfold bind. by intros ->. Qed.

Lemma bind_raise {A B} (m : M A) (k : A -> M B) s e s' :
  m s = (Raise e, s') -> bind m k s = (Raise e, s').
Proof. unfold bind. by intros ->. Qed.

Lemma load_ok l (s : store) a : s !! l = Some a -> load l s = (Ok a, s).
Proof. unfold load. by intros ->. Qed.

(** ** Channel views of a frame *)

Lemma length_put_chan c ps es :
  length es = length ps -> length (put_chan c ps es) = length ps.
Proof. intros E. unfold put_chan. rewrite length_zip_with. lia. Qed.

Lemma put_chan_pixel_length c n ps es :
  Forall (fun p => length p = n) ps ->
  Forall (fun p => length p = n) (put_chan c ps es).
Proof.
  intros Hps. revert es. induction Hps as [|p ps Hp _ IH]; intros [|e es]; cbn;
    try by constructor.
  constructor; [by rewrite length_insert | apply IH].
Qed.

Lemma chan_put_chan_same c n ps es :
  c < n -> Forall (fun p => length p = n) ps -> length es = length ps ->
  chan c (put_chan c ps es) = es.
Proof.
  intros Hc Hps. revert es.
  induction Hps as [|p ps Hp _ IH]; intros [|e es] E; cbn in *; try done.
  rewrite list_lookup_insert_eq by lia. cbn. f_equal. apply IH. lia.
Qed.

Lemma chan_put_chan_other c c' ps es :
  c <> c' -> length es = length ps ->
  chan c' (put_chan c ps es) = chan c' ps.
Proof.
  intros Hc. revert es.
  induction ps as [|p ps IH]; intros [|e es] E; cbn in *; try done.
  rewrite list_lookup_insert_ne by done. f_equal. apply IH. lia.
Qed.

Lemma wf_length {T} (e : ndarray T) h w :
  wf e -> shape e = (h, w) -> length (elems e) = h * w.
Proof. unfold wf. intros -> [= -> ->]. done. Qed.

Lemma get_channel_ok a c :
  c < channels a ->
  get_channel a c = Ok (NdArray (height a) (width a) (chan c (pixels a))).
Proof. intros Hc. unfold get_channel. by rewrite decide_True. Qed.

Lemma get_channel_out_of_bounds a c :
  channels a <= c -> get_channel a c = Raise IndexError.
Proof. intros Hc. unfold get_channel. rewrite decide_False; [done | lia]. Qed.

Lemma get_channel_wf a c v :
  image_wf a -> get_channel a c = Ok v ->
  wf v /\ shape v = (height a, width a).
Proof.
  intros [Hlen _]. unfold get_channel. case_decide; [|done].
  intros [= <-]. split; [|done]. unfold wf, chan; cbn. by rewrite length_fmap.
Qed.

Lemma set_channel_ok a c v :
  c < channels a -> shape v = (height a, width a) ->
  set_channel a c v =
    Ok (Image (height a) (width a) (channels a) (put_chan c (pixels a) (elems v))).
Proof. intros Hc Hs. unfold set_channel. by rewrite !decide_True. Qed.

(** ** The equalizer *)

Section Equalizer.
Context {cv2 : CV2}.

Lemma equalize_channel_run img c (s : store) a :
  s !! img = Some a ->
  equalize_channel img c s =
    match channel_equalized a c with
    | Ok b => (Ok tt, <[img:=b]> s)
    | Raise e => (Raise e, s)
    end.
Proof.
  intros Ha. unfold equalize_channel, channel_equalized, bind, lift, write, load.
  rewrite Ha.
  destruct (get_channel a c) as [v|e]; cbn; [|done].
  destruct (equalizeHist v) as [w|e]; cbn; [|done].
  rewrite Ha. by destruct (set_channel a c w).
Qed.

Lemma equalize_channel_unbound img c (s : store) :
  s !! img = None -> equalize_channel img c s = (Raise UnboundLocation, s).
Proof. intros Hn. unfold equalize_channel, bind, load. by rewrite Hn. Qed.

(** On a well-formed, non-empty frame with a channel [c], the line
    succeeds: channel [c] becomes its equalized version, the other
    channels and the size stay. *)
Lemma channel_equalized_ok a c :
  image_wf a -> 0 < height a -> 0 < width a -> c < channels a ->
  exists e,
    equalizeHist (NdArray (height a) (width a) (chan c (pixels a))) = Ok e /\
    shape e = (height a, width a) /\ wf e /\
    channel_equalized a c =
      Ok (Image (height a) (width a) (channels a) (put_chan c (pixels a) (elems e))).
Proof.
  intros Hwf Hh Hw Hc. unfold channel_equalized.
  rewrite get_channel_ok by done. cbn.
  destruct (equalizeHist_spec (NdArray (height a) (width a) (chan c (pixels a))))
    as (e & He & Hshape & Hwfe).
  { unfold wf, chan; cbn. rewrite length_fmap. apply Hwf. }
  { by split. }
  exists e. rewrite He; cbn. split_and!; try done.
  by apply set_channel_ok.
Qed.

Lemma put_chan_wf a c e :
  image_wf a -> wf e -> shape e = (height a, width a) ->
  image_wf (Image (height a) (width a) (channels a) (put_chan c (pixels a) (elems e))).
Proof.
  intros [Hlen Hpx] Hwfe [= Hr Hc]. split; cbn.
  - rewrite length_put_chan; [done|]. unfold wf in Hwfe. congruence.
  - by apply put_chan_pixel_length.
Qed.

End Equalizer.

(** ** The direction of a gradient *)

Lemma atan_nonneg (t : R) : (0 <= t)%R -> (0 <= atan t)%R.
Proof.
  intros [Ht | <-].
  - left. rewrite <- atan_0. by apply atan_increasing.
  - rewrite atan_0. apply Rle_refl.
Qed.

(** With both arguments non-negative, the angle lies in the first quadrant. *)
Lemma arctan2_first_quadrant (y x : R) :
  (0 <= y)%R -> (0 <= x)%R -> (0 <= arctan2 y x <= PI / 2)%R.
Proof.
  intros Hy Hx. pose proof PI_RGT_0 as Hpi. unfold arctan2.
  destruct (Rlt_dec 0 x) as [Hpos|Hnpos].
  - split.
    + apply atan_nonneg. apply Rmult_le_pos; [done|].
      left. by apply Rinv_0_lt_compat.
    + left. apply atan_bound.
  - destruct (Rlt_dec x 0) as [Hneg|_]; [lra|].
    destruct (Rlt_dec 0 y) as [_|_]; [lra|].
    destruct (Rlt_dec y 0) as [Hyneg|_]; lra.
Qed.

Lemma direction_in_range lane_camera (dy dx : R) :
  in_range (DIR_THRESHOLD (__init__ lane_camera)) (arctan2 (Rabs dy) (Rabs dx)) = true.
Proof.
  apply in_range_le; cbn.
  apply arctan2_first_quadrant; apply Rabs_pos.
Qed.

(** ** The stages on a valid frame *)

Section Stages.
Context {cv2 : CV2}.
Variable self : LaneIsolator.

Lemma equalize_channel_step img c (s : store) a :
  s !! img = Some a ->
  image_wf a -> 0 < height a -> 0 < width a -> c < channels a ->
  exists e,
    equalizeHist (NdArray (height a) (width a) (chan c (pixels a))) = Ok e /\
    shape e = (height a, width a) /\ wf e /\
    equalize_channel img c s =
      (Ok tt, <[img := Image (height a) (width a) (channels a)
                          (put_chan c (pixels a) (elems e))]> s).
Proof.
  intros Ha Hwf Hh Hw Hc.
  destruct (channel_equalized_ok a c) as (e & He & Hs & Hwfe & Hrun); [done..|].
  exists e. split_and!; [done..|].
  by rewrite (equalize_channel_run _ _ _ _ Ha), Hrun.
Qed.

Lemma eq_histogram_valid img (s : store) a :
  s !! img = Some a ->
  image_wf a -> 0 < height a -> 0 < width a -> 3 <= channels a ->
  exists b, eq_histogram img s = (Ok img, <[img := b]> s) /\ equalized_from a b.
Proof.
  intros Ha Hwf Hh Hw Hc. unfold eq_histogram.
  destruct (equalize_channel_step img 0 s a) as (e0 & He0 & Hs0 & Hw0 & R0);
    [done..|lia|].
  set (a1 := Image _ _ _ _) in R0.
  assert (image_wf a1) as Hwf1 by by apply put_chan_wf.
  destruct (equalize_channel_step img 1 (<[img:=a1]> s) a1) as (e1 & He1 & Hs1 & Hw1 & R1);
    [apply lookup_insert_eq|done..|cbn; lia|].
  set (a2 := Image _ _ _ _) in R1.
  assert (image_wf a2) as Hwf2 by by apply (put_chan_wf a1).
  destruct (equalize_channel_step img 2 (<[img:=a2]> (<[img:=a1]> s)) a2)
    as (e2 & He2 & Hs2 & Hw2 & R2); [apply lookup_insert_eq|done..|cbn; lia|].
  set (a3 := Image _ _ _ _) in R2.
  exists a3. split.
  - rewrite (bind_ok _ _ _ _ _ R0), (bind_ok _ _ _ _ _ R1), (bind_ok _ _ _ _ _ R2).
    unfold ret. by rewrite !insert_insert_eq.
  - assert (length (elems e0) = length (pixels a)) as L0.
    { rewrite (wf_length _ _ _ Hw0 Hs0). symmetry. apply Hwf. }
    assert (length (elems e1) = length (pixels a1)) as L1.
    { rewrite (wf_length _ _ _ Hw1 Hs1). symmetry. apply Hwf1. }
    assert (length (elems e2) = length (pixels a2)) as L2.
    { rewrite (wf_length _ _ _ Hw2 Hs2). symmetry. apply Hwf2. }
    split_and!; [done..|by apply (put_chan_wf a2)|].
    assert (chan 1 (pixels a1) = chan 1 (pixels a)) as C1
      by (apply chan_put_chan_other; done).
    assert (chan 2 (pixels a2) = chan 2 (pixels a)) as C2.
    { change (pixels a2) with (put_chan 1 (pixels a1) (elems e1)).
      rewrite chan_put_chan_other by done. apply chan_put_chan_other; done. }
    change (height a1) with (height a) in *. change (width a1) with (width a) in *.
    change (height a2) with (height a) in *. change (width a2) with (width a) in *.
    rewrite C1 in He1. rewrite C2 in He2.
    intros c Hc3.
    destruct c as [|[|[|c]]]; [exists e0|exists e1|exists e2|lia]; (split; [done|]);
      change (pixels a3) with (put_chan 2 (pixels a2) (elems e2)).
    + rewrite chan_put_chan_other by done.
      change (pixels a2) with (put_chan 1 (pixels a1) (elems e1)).
      rewrite chan_put_chan_other by done.
      apply (chan_put_chan_same _ (channels a)); [lia|apply Hwf|done].
    + rewrite chan_put_chan_other by done.
      apply (chan_put_chan_same _ (channels a)); [lia|apply Hwf1|done].
    + apply (chan_put_chan_same _ (channels a)); [lia|apply Hwf2|done].
Qed.

End Stages.

(** ** Samples of combined masks *)

Lemma bit_binary `{Dtype T} (b : bool) : (bit b : T) = zero \/ (bit b : T) = one.
Proof. destruct b; auto. Qed.

Lemma eqb_bit `{Dtype T} (b : bool) : eqb (bit b : T) one = b.
Proof. destruct b; [apply eqb_refl | apply eqb_zero_one]. Qed.

Lemma bit_one `{Dtype T} (b : bool) : (bit b : T) = one <-> b = true.
Proof.
  destruct b; split; try done. intros E. by destruct (zero_ne_one (T:=T)).
Qed.

Lemma bit_zero `{Dtype T} (b : bool) : (bit b : T) = zero <-> b = false.
Proof.
  destruct b; split; try done. intros E. by destruct (zero_ne_one (T:=T)).
Qed.

Lemma Some_bit_one `{Dtype T} (b : bool) : Some (bit b : T) = Some one <-> b = true.
Proof. rewrite <- bit_one. split; congruence. Qed.

Lemma Some_bit_zero `{Dtype T} (b : bool) : Some (bit b : T) = Some zero <-> b <> true.
Proof. rewrite not_true_iff_false, <- bit_zero. split; congruence. Qed.

Ltac np_unfold :=
  unfold set_ones, zeros_like, np_or, np_and, np_eq1, np_sqrt, np_add, np_square,
    np_absolute, np_arctan2, np_map2, np_map; cbn [elems nrows ncols].

Ltac np_lookup :=
  rewrite ?within_threshold_map; np_unfold;
  rewrite ?lookup_zip_with, ?list_lookup_fmap.

Lemma color_mask_lookup self (l_chan s_chan b_chan : ndarray Z) i l s b :
  elems l_chan !! i = Some l -> elems s_chan !! i = Some s ->
  elems b_chan !! i = Some b ->
  elems (set_ones (zeros_like l_chan)
           (np_or (np_and (np_eq1 (_within_threshold l_chan (L_THRESHOLD self)))
                          (np_eq1 (_within_threshold s_chan (S_THRESHOLD self))))
                  (np_eq1 (_within_threshold b_chan (B_THRESHOLD self))))) !! i
  = Some (bit (color_rule self l s b)).
Proof.
  intros Hl Hs Hb. np_lookup. rewrite ?list_lookup_fmap, Hl, Hs, Hb.
  cbn -[eqb one zero]. by rewrite !eqb_thresh1.
Qed.

Lemma gradient_mask_lookup self (magnitude direction : ndarray R) i m d :
  elems magnitude !! i = Some m -> elems direction !! i = Some d ->
  elems (set_ones (zeros_like magnitude)
           (np_and (np_eq1 (_within_threshold magnitude (MAG_THRESHOLD self)))
                   (np_eq1 (_within_threshold direction (DIR_THRESHOLD self))))) !! i
  = Some (bit (gradient_rule self m d)).
Proof.
  intros Hm Hd. np_lookup. rewrite ?list_lookup_fmap, Hm, Hd.
  cbn -[eqb one zero]. by rewrite !eqb_thresh1.
Qed.

Lemma final_mask_lookup (color_select : ndarray Z) (grad_select : ndarray R) i c g :
  elems color_select !! i = Some c -> elems grad_select !! i = Some g ->
  elems (set_ones (zeros_like color_select)
           (np_or (np_eq1 color_select) (np_eq1 grad_select))) !! i
  = Some (bit (eqb c one || eqb g one)).
Proof. intros Hc Hg. np_lookup. by rewrite Hc, Hg. Qed.

(** A mask written by [set_ones] over [zeros_like] is binary and has the
    shape of the array it was made from. *)
Lemma set_ones_zeros_binary `{Dtype T} (a : ndarray T) (m : ndarray bool) :
  binary (set_ones (zeros_like a) m).
Proof.
  unfold binary. np_unfold. apply Forall_lookup. intros i x.
  rewrite lookup_zip_with, list_lookup_fmap.
  destruct (elems a !! i); cbn; [|done].
  destruct (elems m !! i) as [[]|]; cbn; intros [= <-]; auto.
Qed.

Lemma set_ones_zeros_shape `{Dtype T} (a : ndarray T) (m : ndarray bool) :
  shape (set_ones (zeros_like a) m) = shape a.
Proof. done. Qed.

Lemma set_ones_zeros_wf `{Dtype T} (a : ndarray T) (m : ndarray bool) :
  wf a -> length (elems m) = length (elems a) -> wf (set_ones (zeros_like a) m).
Proof.
  unfold wf. np_unfold. intros Ha Hm.
  rewrite length_zip_with, length_fmap. lia.
Qed.

Lemma lookup_lt_wf {T} (a : ndarray T) h w i :
  wf a -> shape a = (h, w) -> i < h * w -> exists x, elems a !! i = Some x.
Proof.
  intros Hwf Hs Hi. apply lookup_lt_is_Some_2.
  by rewrite (wf_length _ _ _ Hwf Hs).
Qed.

Lemma sized_lookup {T} (a : ndarray T) h w i :
  sized h w a -> i < h * w -> exists x, elems a !! i = Some x.
Proof. intros [Hs Hwf]. by apply lookup_lt_wf. Qed.

Lemma sized_length {T} (a : ndarray T) h w :
  sized h w a -> length (elems a) = h * w.
Proof. intros [Hs Hwf]. by apply wf_length. Qed.

Lemma sized_np_map {A B} (f : A -> B) (a : ndarray A) h w :
  sized h w a -> sized h w (np_map f a).
Proof.
  intros [Hs Hwf]. split; [done|]. unfold wf in *; cbn. by rewrite length_fmap.
Qed.

Lemma sized_np_map2 {A B C} (f : A -> B -> C) (a : ndarray A) (b : ndarray B) h w :
  sized h w a -> sized h w b -> sized h w (np_map2 f a b).
Proof.
  intros Ha Hb. pose proof (sized_length _ _ _ Ha). pose proof (sized_length _ _ _ Hb).
  destruct Ha as [[= Hr Hc] Hwf]. split; [unfold shape; cbn; congruence|].
  unfold wf; cbn. rewrite length_zip_with. rewrite Hr, Hc. lia.
Qed.

Section Selectors.
Context {cv2 : CV2}.
Variable self : LaneIsolator.

Lemma converted_channel_valid img code c (s : store) a :
  s !! img = Some a -> valid_frame a -> c < 3 ->
  exists v, converted_channel img code c s = (Ok v, s) /\
            sized (height a) (width a) v.
Proof.
  intros Ha Hv Hc.
  destruct (cvtColor_spec a code Hv) as (b & Hb & (Hwfb & Hch & _) & Hh & Hw).
  exists (NdArray (height b) (width b) (chan c (pixels b))). split.
  - unfold converted_channel, bind, lift, load. rewrite Ha, Hb.
    rewrite get_channel_ok by lia. done.
  - split; [unfold shape; cbn; congruence|].
    unfold wf, chan; cbn. rewrite length_fmap. apply Hwfb.
Qed.

Lemma color_threshold_valid img (s : store) a :
  s !! img = Some a -> valid_frame a ->
  exists l_chan s_chan b_chan,
    converted_channel img COLOR_BGR2LUV 0 s = (Ok l_chan, s) /\
    converted_channel img COLOR_BGR2HLS 2 s = (Ok s_chan, s) /\
    converted_channel img COLOR_BGR2Lab 2 s = (Ok b_chan, s) /\
    sized (height a) (width a) l_chan /\
    sized (height a) (width a) s_chan /\
    sized (height a) (width a) b_chan /\
    color_threshold self img s =
      (Ok (set_ones (zeros_like l_chan)
             (np_or (np_and (np_eq1 (_within_threshold l_chan (L_THRESHOLD self)))
                            (np_eq1 (_within_threshold s_chan (S_THRESHOLD self))))
                    (np_eq1 (_within_threshold b_chan (B_THRESHOLD self))))), s).
Proof.
  intros Ha Hv.
  destruct (converted_channel_valid img COLOR_BGR2LUV 0 s a) as (l & Hl & Sl); [done..|lia|].
  destruct (converted_channel_valid img COLOR_BGR2HLS 2 s a) as (sc & Hs & Ss); [done..|lia|].
  destruct (converted_channel_valid img COLOR_BGR2Lab 2 s a) as (b & Hb & Sb); [done..|lia|].
  exists l, sc, b. split_and!; [done..|].
  unfold color_threshold.
  by rewrite (bind_ok _ _ _ _ _ Hl), (bind_ok _ _ _ _ _ Hs), (bind_ok _ _ _ _ _ Hb).
Qed.

Lemma gradients_valid (gray : ndarray Z) h w :
  sized h w gray -> 0 < h -> 0 < w ->
  exists grad_x grad_y,
    Sobel_64F gray 1 0 3 = Ok grad_x /\ Sobel_64F gray 0 1 3 = Ok grad_y /\
    sized h w grad_x /\ sized h w grad_y /\
    _gradients gray = Ok (grad_x, grad_y).
Proof.
  intros [Hs Hwf] Hh Hw.
  assert (nonempty gray) as Hne.
  { injection Hs as Hr Hc. unfold nonempty. rewrite Hr, Hc. by split. }
  destruct (Sobel_64F_spec gray 1 0 Hwf Hne) as (gx & Hx & Sx & Wx); [done|].
  destruct (Sobel_64F_spec gray 0 1 Hwf Hne) as (gy & Hy & Sy & Wy); [done|].
  exists gx, gy. split_and!; try done.
  - split; [congruence|done].
  - split; [congruence|done].
  - unfold _gradients. by rewrite Hx, Hy.
Qed.

Lemma gradient_threshold_valid img (s : store) a :
  s !! img = Some a -> valid_frame a ->
  exists gray grad_x grad_y,
    let magnitude := np_sqrt (np_add (np_square grad_x) (np_square grad_y)) in
    let direction := np_arctan2 (np_absolute grad_y) (np_absolute grad_x) in
    cvtColor_BGR2GRAY a = Ok gray /\
    _gradients gray = Ok (grad_x, grad_y) /\
    _gradient_mag gray = Ok magnitude /\
    _gradient_dir gray = Ok direction /\
    sized (height a) (width a) grad_x /\
    sized (height a) (width a) grad_y /\
    gradient_threshold self img s =
      (Ok (set_ones (zeros_like magnitude)
             (np_and (np_eq1 (_within_threshold magnitude (MAG_THRESHOLD self)))
                     (np_eq1 (_within_threshold direction (DIR_THRESHOLD self))))), s).
Proof.
  intros Ha Hv.
  destruct (cvtColor_BGR2GRAY_spec a Hv) as (gray & Hg & Sg & Wg).
  destruct (gradients_valid gray (height a) (width a)) as (gx & gy & _ & _ & Sx & Sy & Hgr);
    [by split|apply Hv..|].
  exists gray, gx, gy. cbn zeta.
  assert (_gradient_mag gray = Ok (np_sqrt (np_add (np_square gx) (np_square gy)))) as Hm
    by (unfold _gradient_mag; by rewrite Hgr).
  assert (_gradient_dir gray = Ok (np_arctan2 (np_absolute gy) (np_absolute gx))) as Hd
    by (unfold _gradient_dir; by rewrite Hgr).
  split_and!; [done..|].
  unfold gradient_threshold, bind, lift, load, ret. by rewrite Ha, Hg, Hm, Hd.
Qed.

(** The selectors only read the store. *)
Lemma color_threshold_store img (s : store) :
  snd (color_threshold self img s) = s.
Proof.
  unfold color_threshold, converted_channel, bind, lift, load, ret.
  repeat case_match; simplify_eq/=; done.
Qed.

Lemma gradient_threshold_store img (s : store) :
  snd (gradient_threshold self img s) = s.
Proof.
  unfold gradient_threshold, bind, lift, load, ret.
  repeat case_match; simplify_eq/=; done.
Qed.

(** After [isolate_lines] the store is as [eq_histogram] left it. *)
Lemma isolate_lines_store img (s : store) :
  snd (isolate_lines self img s) = snd (eq_histogram img s).
Proof.
  unfold isolate_lines. unfold bind at 1.
  destruct (eq_histogram img s) as [[l|e] s1]; [|done]. cbn [snd].
  unfold bind.
  pose proof (color_threshold_store l s1) as Hc.
  destruct (color_threshold self l s1) as [[c|e] s2]; cbn in Hc; subst; [|done].
  pose proof (gradient_threshold_store l s1) as Hg.
  destruct (gradient_threshold self l s1) as [[g|e] s2]; cbn in Hg; subst; done.
Qed.

End Selectors.

Ltac prove_valid_frame :=
  split_and!; cbn; try lia; (split; cbn; [done|]);
  repeat first [apply List.Forall_nil | apply List.Forall_cons; [done|]].

Lemma frame0_valid : valid_frame frame0.
Proof. prove_valid_frame. Qed.

(** * The claims on the pipeline *)

(** C2: for every valid 3-channel frame held at [img], the colour selector
    of the default configuration returns a mask in which a pixel is 1
    exactly when (its lightness sample is within [120, 255] and its
    saturation sample within [105, 255]) or its chrominance sample is
    within [180, 210], and 0 otherwise; in particular a pixel whose
    chrominance is in range is 1 even when lightness and saturation are
    both out of range. *)
Theorem color_threshold_rule {cv2 : CV2} lane_camera img (s : store) a :
  s !! img = Some a -> valid_frame a ->
  exists l_chan s_chan b_chan mask,
    converted_channel img COLOR_BGR2LUV 0 s = (Ok l_chan, s) /\
    converted_channel img COLOR_BGR2HLS 2 s = (Ok s_chan, s) /\
    converted_channel img COLOR_BGR2Lab 2 s = (Ok b_chan, s) /\
    color_threshold (__init__ lane_camera) img s = (Ok mask, s) /\
    forall i, i < height a * width a ->
      exists l sa b,
        elems l_chan !! i = Some l /\ elems s_chan !! i = Some sa /\
        elems b_chan !! i = Some b /\
        (elems mask !! i = Some 1%Z <->
           ((120 <= l <= 255)%Z /\ (105 <= sa <= 255)%Z) \/ (180 <= b <= 210)%Z) /\
        (elems mask !! i = Some 0%Z <->
           ~ (((120 <= l <= 255)%Z /\ (105 <= sa <= 255)%Z) \/ (180 <= b <= 210)%Z)) /\
        ((180 <= b <= 210)%Z -> ~ (120 <= l <= 255)%Z -> ~ (105 <= sa <= 255)%Z ->
           elems mask !! i = Some 1%Z).
Proof.
  intros Ha Hv.
  destruct (color_threshold_valid (__init__ lane_camera) img s a Ha Hv)
    as (l_chan & s_chan & b_chan & Hl & Hs & Hb & Sl & Ss & Sb & Hrun).
  eexists l_chan, s_chan, b_chan, _. split_and!; [done..|].
  intros i Hi.
  destruct (sized_lookup _ _ _ i Sl Hi) as [l El].
  destruct (sized_lookup _ _ _ i Ss Hi) as [sa Es].
  destruct (sized_lookup _ _ _ i Sb Hi) as [b Eb].
  exists l, sa, b.
  rewrite (color_mask_lookup (__init__ lane_camera) _ _ _ i l sa b El Es Eb).
  assert (color_rule (__init__ lane_camera) l sa b = true <->
          ((120 <= l <= 255)%Z /\ (105 <= sa <= 255)%Z) \/ (180 <= b <= 210)%Z) as Hrule.
  { unfold color_rule. rewrite orb_true_iff, andb_true_iff, !in_range_le. cbn. tauto. }
  split_and!; [done..| | |].
  - rewrite <- Hrule. apply (@Some_bit_one Z uint8).
  - rewrite <- Hrule. apply (@Some_bit_zero Z uint8).
  - intros Hin _ _. apply (@Some_bit_one Z uint8), Hrule. by right.
Qed.

Lemma color_threshold_rule_witness :
  exists l_chan s_chan b_chan mask,
    converted_channel (cv2:=opencv_ref) 0 COLOR_BGR2LUV 0 store0 = (Ok l_chan, store0) /\
    converted_channel (cv2:=opencv_ref) 0 COLOR_BGR2HLS 2 store0 = (Ok s_chan, store0) /\
    converted_channel (cv2:=opencv_ref) 0 COLOR_BGR2Lab 2 store0 = (Ok b_chan, store0) /\
    color_threshold (cv2:=opencv_ref) (__init__ None) 0 store0 = (Ok mask, store0) /\
    forall i, i < 2 * 2 ->
      exists l sa b,
        elems l_chan !! i = Some l /\ elems s_chan !! i = Some sa /\
        elems b_chan !! i = Some b /\
        (elems mask !! i = Some 1%Z <->
           ((120 <= l <= 255)%Z /\ (105 <= sa <= 255)%Z) \/ (180 <= b <= 210)%Z) /\
        (elems mask !! i = Some 0%Z <->
           ~ (((120 <= l <= 255)%Z /\ (105 <= sa <= 255)%Z) \/ (180 <= b <= 210)%Z)) /\
        ((180 <= b <= 210)%Z -> ~ (120 <= l <= 255)%Z -> ~ (105 <= sa <= 255)%Z ->
           elems mask !! i = Some 1%Z).
Proof.
  refine (color_threshold_rule (cv2:=opencv_ref) None 0 store0 frame0 _ _).
  - reflexivity.
  - prove_valid_frame.
Defined.

(** ** The whole pipeline on a valid frame *)

Lemma sized_within_threshold `{Dtype T} (a : ndarray T) th h w :
  sized h w a -> sized h w (_within_threshold a th).
Proof. rewrite within_threshold_map. apply sized_np_map. Qed.

Ltac solve_sized :=
  unfold set_ones, zeros_like, np_or, np_and, np_eq1, np_sqrt, np_add, np_square,
    np_absolute, np_arctan2;
  repeat first [ assumption
               | apply sized_np_map2
               | apply sized_np_map
               | apply sized_within_threshold ].

Lemma equalized_from_valid `{CV2} a b :
  valid_frame a -> equalized_from a b -> valid_frame b.
Proof.
  intros (_ & Hch & Hh & Hw) (Eh & Ew & Ec & Hwf & _).
  split_and!; [done|congruence|lia..].
Qed.

Section Whole.
Context {cv2 : CV2}.
Variable self : LaneIsolator.

Lemma pipeline_valid img (s : store) a :
  s !! img = Some a -> valid_frame a ->
  exists b color_select grad_select,
    let s' := <[img := b]> s in
    eq_histogram img s = (Ok img, s') /\
    equalized_from a b /\
    color_threshold self img s' = (Ok color_select, s') /\
    gradient_threshold self img s' = (Ok grad_select, s') /\
    isolate_lines self img s =
      (Ok (set_ones (zeros_like color_select)
             (np_or (np_eq1 color_select) (np_eq1 grad_select))), s') /\
    sized (height a) (width a) color_select /\
    sized (height a) (width a) grad_select /\
    binary color_select /\ binary grad_select.
Proof.
  intros Ha Hv. pose proof Hv as (Hwf & Hch & Hh & Hw).
  destruct (eq_histogram_valid img s a Ha Hwf Hh Hw) as (b & Heq & Hb); [lia|].
  pose proof (equalized_from_valid a b Hv Hb) as Hvb.
  pose proof Hb as (Eh & Ew & _).
  assert ((<[img:=b]> s) !! img = Some b) as Hlb by apply lookup_insert_eq.
  destruct (color_threshold_valid self img _ b Hlb Hvb)
    as (l_chan & s_chan & b_chan & _ & _ & _ & Sl & Ss & Sb & Hc).
  destruct (gradient_threshold_valid self img _ b Hlb Hvb)
    as (gray & gx & gy & _ & _ & _ & _ & Sx & Sy & Hg).
  rewrite Eh, Ew in *.
  eexists b, _, _. cbn zeta. split_and!; [done..| | | | |].
  - unfold isolate_lines.
    by rewrite (bind_ok _ _ _ _ _ Heq), (bind_ok _ _ _ _ _ Hc), (bind_ok _ _ _ _ _ Hg).
  - solve_sized.
  - solve_sized.
  - apply set_ones_zeros_binary.
  - apply set_ones_zeros_binary.
Qed.

End Whole.

(** C1: for every valid 3-channel frame [a] held at [img], [isolate_lines]
    returns a mask in which a pixel is 1 exactly when that pixel is 1 in
    the colour mask or 1 in the gradient mask, and 0 otherwise, both masks
    being computed on the frame as [eq_histogram] left it. *)
Theorem isolate_lines_union {cv2 : CV2} self img (s : store) a :
  s !! img = Some a -> valid_frame a ->
  exists b color_select grad_select selection,
    eq_histogram img s = (Ok img, <[img := b]> s) /\
    equalized_from a b /\
    color_threshold self img (<[img := b]> s) = (Ok color_select, <[img := b]> s) /\
    gradient_threshold self img (<[img := b]> s) = (Ok grad_select, <[img := b]> s) /\
    isolate_lines self img s = (Ok selection, <[img := b]> s) /\
    shape selection = (height a, width a) /\
    length (elems selection) = height a * width a /\
    forall i, i < height a * width a ->
      exists c g,
        elems color_select !! i = Some c /\ elems grad_select !! i = Some g /\
        (elems selection !! i = Some 1%Z <-> c = 1%Z \/ g = 1%R) /\
        (elems selection !! i = Some 0%Z <-> ~ (c = 1%Z \/ g = 1%R)).
Proof.
  intros Ha Hv.
  destruct (pipeline_valid self img s a Ha Hv)
    as (b & cs & gs & Heq & Hb & Hc & Hg & Hrun & Sc & Sg & _ & _).
  exists b, cs, gs. eexists. split_and!; [done..| | |].
  - rewrite set_ones_zeros_shape. apply Sc.
  - apply (sized_length _ (height a) (width a)). solve_sized.
  - intros i Hi.
    destruct (sized_lookup _ _ _ i Sc Hi) as [c Ec].
    destruct (sized_lookup _ _ _ i Sg Hi) as [g Eg].
    exists c, g. rewrite (final_mask_lookup _ _ i c g Ec Eg).
    assert (eqb c one || eqb g one = true <-> c = 1%Z \/ g = 1%R) as Hor.
    { rewrite orb_true_iff, !eqb_eq. done. }
    split_and!; [done..| |]; rewrite <- Hor.
    + apply (@Some_bit_one Z uint8).
    + apply (@Some_bit_zero Z uint8).
Qed.

Lemma isolate_lines_union_witness :
  exists b color_select grad_select selection,
    eq_histogram (cv2:=opencv_ref) 0 store0 = (Ok 0, <[0 := b]> store0) /\
    equalized_from (H:=opencv_ref) frame0 b /\
    color_threshold (cv2:=opencv_ref) (__init__ None) 0 (<[0 := b]> store0)
      = (Ok color_select, <[0 := b]> store0) /\
    gradient_threshold (cv2:=opencv_ref) (__init__ None) 0 (<[0 := b]> store0)
      = (Ok grad_select, <[0 := b]> store0) /\
    isolate_lines (cv2:=opencv_ref) (__init__ None) 0 store0
      = (Ok selection, <[0 := b]> store0) /\
    shape selection = (2, 2) /\
    length (elems selection) = 2 * 2 /\
    forall i, i < 2 * 2 ->
      exists c g,
        elems color_select !! i = Some c /\ elems grad_select !! i = Some g /\
        (elems selection !! i = Some 1%Z <-> c = 1%Z \/ g = 1%R) /\
        (elems selection !! i = Some 0%Z <-> ~ (c = 1%Z \/ g = 1%R)).
Proof.
  refine (isolate_lines_union (cv2:=opencv_ref) (__init__ None) 0 store0 frame0 _ _).
  - reflexivity.
  - prove_valid_frame.
Defined.

(** C3: for every non-empty valid frame of [height a] rows and [width a]
    columns, the colour mask, the gradient mask and the final mask all have
    [height a] rows and [width a] columns, one sample per position, and
    every sample of each mask is 0 or 1. *)
Theorem masks_shape_and_range {cv2 : CV2} self img (s : store) a :
  s !! img = Some a -> valid_frame a ->
  exists b color_select grad_select selection,
    eq_histogram img s = (Ok img, <[img := b]> s) /\
    color_threshold self img (<[img := b]> s) = (Ok color_select, <[img := b]> s) /\
    gradient_threshold self img (<[img := b]> s) = (Ok grad_select, <[img := b]> s) /\
    isolate_lines self img s = (Ok selection, <[img := b]> s) /\
    sized (height a) (width a) color_select /\
    sized (height a) (width a) grad_select /\
    sized (height a) (width a) selection /\
    binary color_select /\ binary grad_select /\ binary selection.
Proof.
  intros Ha Hv.
  destruct (pipeline_valid self img s a Ha Hv)
    as (b & cs & gs & Heq & Hb & Hc & Hg & Hrun & Sc & Sg & Bc & Bg).
  exists b, cs, gs. eexists. split_and!; [done..| |done|done|].
  - solve_sized.
  - apply set_ones_zeros_binary.
Qed.

Lemma masks_shape_and_range_witness :
  exists b color_select grad_select selection,
    eq_histogram (cv2:=opencv_ref) 0 store0 = (Ok 0, <[0 := b]> store0) /\
    color_threshold (cv2:=opencv_ref) (__init__ None) 0 (<[0 := b]> store0)
      = (Ok color_select, <[0 := b]> store0) /\
    gradient_threshold (cv2:=opencv_ref) (__init__ None) 0 (<[0 := b]> store0)
      = (Ok grad_select, <[0 := b]> store0) /\
    isolate_lines (cv2:=opencv_ref) (__init__ None) 0 store0
      = (Ok selection, <[0 := b]> store0) /\
    sized 2 2 color_select /\ sized 2 2 grad_select /\ sized 2 2 selection /\
    binary color_select /\ binary grad_select /\ binary selection.
Proof.
  refine (masks_shape_and_range (cv2:=opencv_ref) (__init__ None) 0 store0 frame0 _ _).
  - reflexivity.
  - prove_valid_frame.
Defined.

(** ** The gradient selector under the default configuration *)

Lemma direction_lookup (grad_x grad_y : ndarray R) i d :
  elems (np_arctan2 (np_absolute grad_y) (np_absolute grad_x)) !! i = Some d ->
  exists dy dx, d = arctan2 (Rabs dy) (Rabs dx).
Proof.
  np_unfold. rewrite lookup_zip_with_Some.
  intros (y & x & -> & Hy & Hx).
  rewrite list_lookup_fmap in Hy, Hx.
  destruct (elems grad_y !! i) as [dy|]; [|done].
  destruct (elems grad_x !! i) as [dx|]; [|done].
  cbn in Hy, Hx. exists dy, dx. congruence.
Qed.

(** With the default direction range, the direction map passes entirely. *)
Lemma direction_threshold_all_ones lane_camera (grad_x grad_y : ndarray R) :
  let direction := np_arctan2 (np_absolute grad_y) (np_absolute grad_x) in
  _within_threshold direction (DIR_THRESHOLD (__init__ lane_camera))
  = np_map (fun _ => 1%R) direction.
Proof.
  intros direction. rewrite within_threshold_map. unfold np_map. f_equal.
  apply list_eq. intros i. rewrite !list_lookup_fmap.
  destruct (elems direction !! i) as [d|] eqn:E; [|done]. cbn. f_equal.
  apply direction_lookup in E as (dy & dx & ->).
  apply (@thresh1_one R float64). apply (direction_in_range lane_camera).
Qed.

(** When the direction threshold passes everything, the combined mask is
    the magnitude mask. *)
Lemma gradient_mask_is_magnitude_mask lane_camera (magnitude grad_x grad_y : ndarray R) h w :
  sized h w magnitude -> sized h w grad_x -> sized h w grad_y ->
  let direction := np_arctan2 (np_absolute grad_y) (np_absolute grad_x) in
  set_ones (zeros_like magnitude)
    (np_and (np_eq1 (_within_threshold magnitude (MAG_THRESHOLD (__init__ lane_camera))))
            (np_eq1 (_within_threshold direction (DIR_THRESHOLD (__init__ lane_camera)))))
  = _within_threshold magnitude (MAG_THRESHOLD (__init__ lane_camera)).
Proof.
  intros Sm Sx Sy direction. subst direction.
  rewrite (direction_threshold_all_ones lane_camera).
  assert (sized h w (np_arctan2 (np_absolute grad_y) (np_absolute grad_x))) as Sd
    by solve_sized.
  revert Sd. generalize (np_arctan2 (np_absolute grad_y) (np_absolute grad_x)).
  intros direction Sd.
  assert (length (elems direction) = length (elems magnitude)) as Hlen
    by (by rewrite (sized_length _ h w Sm), (sized_length _ h w Sd)).
  rewrite within_threshold_map.
  unfold set_ones, zeros_like, np_and, np_eq1, np_map2, np_map; cbn [elems nrows ncols].
  f_equal. apply list_eq. intros i.
  rewrite !lookup_zip_with, !list_lookup_fmap.
  destruct (elems magnitude !! i) as [m|] eqn:Em; [|done].
  destruct (elems direction !! i) as [d|] eqn:Ed.
  - cbn -[eqb one zero]. rewrite eqb_thresh1, eqb_refl, andb_true_r. done.
  - apply lookup_lt_Some in Em. apply lookup_ge_None in Ed. lia.
Qed.

(** C6: for every valid frame held at [img], the gradient selector of the
    default configuration sets a pixel exactly when its gradient magnitude
    is within [30, 235] and its gradient direction is within [0, pi/2];
    every direction sample, being [arctan2] of two absolute values, lies in
    [0, pi/2], so the direction threshold passes every pixel and the
    gradient mask is the magnitude-threshold mask. *)
Theorem gradient_threshold_rule {cv2 : CV2} lane_camera img (s : store) a :
  s !! img = Some a -> valid_frame a ->
  exists gray magnitude direction mask,
    cvtColor_BGR2GRAY a = Ok gray /\
    _gradient_mag gray = Ok magnitude /\
    _gradient_dir gray = Ok direction /\
    gradient_threshold (__init__ lane_camera) img s = (Ok mask, s) /\
    (forall i, i < height a * width a ->
       exists m d,
         elems magnitude !! i = Some m /\ elems direction !! i = Some d /\
         (elems mask !! i = Some 1%R <->
            (30 <= m <= 235)%R /\ (0 <= d <= PI / 2)%R) /\
         (elems mask !! i = Some 0%R <->
            ~ ((30 <= m <= 235)%R /\ (0 <= d <= PI / 2)%R)) /\
         (0 <= d <= PI / 2)%R) /\
    _within_threshold direction (DIR_THRESHOLD (__init__ lane_camera))
      = np_map (fun _ => 1%R) direction /\
    mask = _within_threshold magnitude (MAG_THRESHOLD (__init__ lane_camera)).
Proof.
  intros Ha Hv.
  destruct (gradient_threshold_valid (__init__ lane_camera) img s a Ha Hv)
    as (gray & gx & gy & Hgray & _ & Hm & Hd & Sx & Sy & Hrun).
  cbn zeta in *.
  set (magnitude := np_sqrt (np_add (np_square gx) (np_square gy))) in *.
  set (direction := np_arctan2 (np_absolute gy) (np_absolute gx)) in *.
  assert (sized (height a) (width a) magnitude) as Smag by (unfold magnitude; solve_sized).
  assert (sized (height a) (width a) direction) as Sdir by (unfold direction; solve_sized).
  exists gray, magnitude, direction. eexists. split_and!; [done..| | |].
  - intros i Hi.
    destruct (sized_lookup _ _ _ i Smag Hi) as [m Em].
    destruct (sized_lookup _ _ _ i Sdir Hi) as [d Ed].
    exists m, d. rewrite (gradient_mask_lookup (__init__ lane_camera) _ _ i m d Em Ed).
    assert (gradient_rule (__init__ lane_camera) m d = true <->
            (30 <= m <= 235)%R /\ (0 <= d <= PI / 2)%R) as Hrule.
    { unfold gradient_rule. rewrite andb_true_iff, !in_range_le. reflexivity. }
    do 2 (split; [done|]). split; [|split].
    + rewrite <- Hrule. apply (@Some_bit_one R float64).
    + rewrite <- Hrule. apply (@Some_bit_zero R float64).
    + apply direction_lookup in Ed as (dy & dx & ->).
      apply arctan2_first_quadrant; apply Rabs_pos.
  - apply direction_threshold_all_ones.
  - apply (gradient_mask_is_magnitude_mask _ _ _ _ (height a) (width a)); solve_sized.
Qed.

Lemma gradient_threshold_rule_witness :
  exists gray magnitude direction mask,
    Ref.cvtColor_BGR2GRAY frame0 = Ok gray /\
    _gradient_mag (cv2:=opencv_ref) gray = Ok magnitude /\
    _gradient_dir (cv2:=opencv_ref) gray = Ok direction /\
    gradient_threshold (cv2:=opencv_ref) (__init__ None) 0 store0 = (Ok mask, store0) /\
    (forall i, i < 2 * 2 ->
       exists m d,
         elems magnitude !! i = Some m /\ elems direction !! i = Some d /\
         (elems mask !! i = Some 1%R <->
            (30 <= m <= 235)%R /\ (0 <= d <= PI / 2)%R) /\
         (elems mask !! i = Some 0%R <->
            ~ ((30 <= m <= 235)%R /\ (0 <= d <= PI / 2)%R)) /\
         (0 <= d <= PI / 2)%R) /\
    _within_threshold direction (DIR_THRESHOLD (__init__ None))
      = np_map (fun _ => 1%R) direction /\
    mask = _within_threshold magnitude (MAG_THRESHOLD (__init__ None)).
Proof.
  refine (gradient_threshold_rule (cv2:=opencv_ref) None 0 store0 frame0 _ _).
  - reflexivity.
  - prove_valid_frame.
Defined.

(** ** Two runs on frames of equal content *)

Section Simulation.
Variables l1 l2 : loc.

Lemma sim_ret {A} (R : A -> A -> Prop) a1 a2 :
  R a1 a2 -> sim l1 l2 R (ret a1) (ret a2).
Proof. intros HR s1 s2 Hs. by split. Qed.

Lemma sim_lift {A} (r : result A) : sim l1 l2 eq (lift r) (lift r).
Proof. intros s1 s2 Hs. split; [|done]. by destruct r. Qed.

Lemma sim_load : sim l1 l2 eq (load l1) (load l2).
Proof.
  intros s1 s2 Hs. unfold load. rewrite Hs.
  destruct (s2 !! l2); by split.
Qed.

Lemma sim_write a : sim l1 l2 eq (write l1 a) (write l2 a).
Proof.
  intros s1 s2 Hs. split; [done|]. unfold write, same_frame; cbn.
  by rewrite !lookup_insert_eq.
Qed.

Lemma sim_bind {A B} (R : A -> A -> Prop) (Q : B -> B -> Prop)
    (m1 m2 : M A) (k1 k2 : A -> M B) :
  sim l1 l2 R m1 m2 ->
  (forall a1 a2, R a1 a2 -> sim l1 l2 Q (k1 a1) (k2 a2)) ->
  sim l1 l2 Q (bind m1 k1) (bind m2 k2).
Proof.
  intros Hm Hk s1 s2 Hs. unfold bind.
  destruct (Hm s1 s2 Hs) as [Hr Hs'].
  destruct (m1 s1) as [[a1|e1] t1], (m2 s2) as [[a2|e2] t2]; cbn in *; try done.
  by apply Hk.
Qed.

Lemma result_rel_eq {A} (r1 r2 : result A) : result_rel eq r1 r2 -> r1 = r2.
Proof. destruct r1, r2; cbn; intros E; by try rewrite E. Qed.

End Simulation.

Ltac sim_step :=
  first [ apply sim_lift | apply sim_load | apply sim_write
        | apply sim_ret; done
        | eapply (sim_bind _ _ eq); [|intros ? ? ->] ].

Section Determinism.
Context {cv2 : CV2}.
Variable self : LaneIsolator.
Variables l1 l2 : loc.

Lemma sim_equalize_channel c :
  sim l1 l2 eq (equalize_channel l1 c) (equalize_channel l2 c).
Proof. unfold equalize_channel. repeat sim_step. Qed.

Lemma sim_eq_histogram :
  sim l1 l2 (fun x y => x = l1 /\ y = l2) (eq_histogram l1) (eq_histogram l2).
Proof.
  unfold eq_histogram.
  do 3 (eapply sim_bind; [apply sim_equalize_channel | intros _ _ _]).
  by apply sim_ret.
Qed.

Lemma sim_converted_channel code c :
  sim l1 l2 eq (converted_channel l1 code c) (converted_channel l2 code c).
Proof. unfold converted_channel. repeat sim_step. Qed.

Lemma sim_color_threshold :
  sim l1 l2 eq (color_threshold self l1) (color_threshold self l2).
Proof.
  unfold color_threshold.
  do 3 (eapply sim_bind; [apply sim_converted_channel | intros ? ? ->]).
  by apply sim_ret.
Qed.

Lemma sim_gradient_threshold :
  sim l1 l2 eq (gradient_threshold self l1) (gradient_threshold self l2).
Proof. unfold gradient_threshold. repeat sim_step. Qed.

Lemma sim_isolate_lines :
  sim l1 l2 eq (isolate_lines self l1) (isolate_lines self l2).
Proof.
  unfold isolate_lines.
  eapply sim_bind; [apply sim_eq_histogram | intros ? ? [-> ->]].
  eapply sim_bind; [apply sim_color_threshold | intros ? ? ->].
  eapply sim_bind; [apply sim_gradient_threshold | intros ? ? ->].
  by apply sim_ret.
Qed.

End Determinism.

(** C8: two invocations of [isolate_lines] on frames of identical content
    end in the same outcome, the same mask sample for sample (or the same
    exception), whatever the locations of the two buffers and whatever else
    the two stores hold; the isolator itself carries no state from one
    invocation to the next. *)
Theorem isolate_lines_deterministic {cv2 : CV2} self img1 img2 (s1 s2 : store) :
  s1 !! img1 = s2 !! img2 ->
  (isolate_lines self img1 s1).1 = (isolate_lines self img2 s2).1.
Proof.
  intros Hs. apply result_rel_eq.
  by apply (sim_isolate_lines self img1 img2 s1 s2).
Qed.

Lemma isolate_lines_deterministic_witness :
  (isolate_lines (cv2:=opencv_ref) (__init__ None) 0 store0).1
  = (isolate_lines (cv2:=opencv_ref) (__init__ None) 5 store1).1.
Proof.
  refine (isolate_lines_deterministic (cv2:=opencv_ref) (__init__ None) 0 5 store0 store1 _).
  reflexivity.
Defined.

(** ** Frames outside the input contract *)

Section OutOfContract.
Context {cv2 : CV2}.
Variable self : LaneIsolator.

Lemma equalize_channel_index_error img c (s : store) a :
  s !! img = Some a -> channels a <= c ->
  equalize_channel img c s = (Raise IndexError, s).
Proof.
  intros Ha Hc. rewrite (equalize_channel_run _ _ _ _ Ha).
  unfold channel_equalized. by rewrite get_channel_out_of_bounds.
Qed.

(** On a non-empty frame of fewer than three channels, [eq_histogram]
    equalizes the channels that exist and fails on the first missing
    one. *)
Lemma eq_histogram_index_error img (s : store) a :
  s !! img = Some a ->
  image_wf a -> 0 < height a -> 0 < width a -> channels a < 3 ->
  exists s', eq_histogram img s = (Raise IndexError, s').
Proof.
  intros Ha Hwf Hh Hw Hc. unfold eq_histogram.
  destruct (decide (channels a = 0)) as [C0|C0].
  { eexists. eapply bind_raise, equalize_channel_index_error; [done|lia]. }
  destruct (equalize_channel_step img 0 s a) as (e0 & _ & Hs0 & Hw0 & R0);
    [done..|lia|].
  set (a1 := Image _ _ _ _) in R0.
  rewrite (bind_ok _ _ _ _ _ R0).
  destruct (decide (channels a = 1)) as [C1|C1].
  { eexists. eapply bind_raise, (equalize_channel_index_error _ _ _ a1);
      [apply lookup_insert_eq|cbn; lia]. }
  assert (image_wf a1) as Hwf1 by by apply put_chan_wf.
  destruct (equalize_channel_step img 1 (<[img:=a1]> s) a1) as (e1 & _ & Hs1 & Hw1 & R1);
    [apply lookup_insert_eq|done..|cbn; lia|].
  set (a2 := Image _ _ _ _) in R1.
  rewrite (bind_ok _ _ _ _ _ R1).
  eexists. eapply bind_raise, (equalize_channel_index_error _ _ _ a2);
    [apply lookup_insert_eq|cbn; lia].
Qed.

End OutOfContract.

(** C9, as the specification states it, fails: on a two-channel frame the
    run ends in the [IndexError] of the access to the missing third
    channel, not in an [InvalidInput] error, and by then the two existing
    channels have been equalized in the caller's buffer. *)
Lemma isolate_lines_two_channels :
  image_wf frame_2ch /\ invalid_frame frame_2ch /\
  isolate_lines (cv2:=opencv_ref) (__init__ None) 0 {[ 0 := frame_2ch ]}
  = (Raise IndexError, {[ 0 := Image 1 2 2 [[0; 0]; [255; 255]]%Z ]}) /\
  (isolate_lines (cv2:=opencv_ref) (__init__ None) 0 {[ 0 := frame_2ch ]}).1
  <> Raise InvalidInput.
Proof.
  split_and!.
  - split; cbn; [done|].
    repeat first [apply List.Forall_nil | apply List.Forall_cons; [done|]].
  - right; right. cbn. lia.
  - vm_compute. reflexivity.
  - vm_compute. discriminate.
Qed.

(** C9, amended: the source validates nothing and raises no [InvalidInput].
    On a non-empty frame with fewer than three channels the run ends in the
    [IndexError] of the first access to a missing channel, raised inside
    [eq_histogram] and passed on to the caller; no mask is returned. *)
Theorem isolate_lines_missing_channel {cv2 : CV2} self img (s : store) a :
  s !! img = Some a ->
  image_wf a -> 0 < height a -> 0 < width a -> channels a < 3 ->
  exists s', isolate_lines self img s = (Raise IndexError, s').
Proof.
  intros Ha Hwf Hh Hw Hc.
  destruct (eq_histogram_index_error img s a) as [s' Hs']; [done..|].
  exists s'. unfold isolate_lines. by apply bind_raise.
Qed.

Lemma isolate_lines_missing_channel_witness :
  exists s', isolate_lines (cv2:=opencv_ref) (__init__ None) 0 {[ 0 := frame_2ch ]}
             = (Raise IndexError, s').
Proof.
  refine (isolate_lines_missing_channel (cv2:=opencv_ref) (__init__ None) 0
            {[ 0 := frame_2ch ]} frame_2ch _ _ _ _ _).
  - reflexivity.
  - split; cbn; [done|].
    repeat first [apply List.Forall_nil | apply List.Forall_cons; [done|]].
  - cbn; lia.
  - cbn; lia.
  - cbn; lia.
Defined.

(** ** The caller's buffer *)

(** C10, as stated, fails on its last clause: equalization maps a
    uniformly white frame to itself, so after [isolate_lines] the caller's
    buffer still holds its pre-call pixel values. *)
Lemma isolate_lines_white_frame_unchanged :
  valid_frame frame_white /\
  (isolate_lines (cv2:=opencv_ref) (__init__ None) 0 {[ 0 := frame_white ]}).2 !! 0
  = Some frame_white.
Proof.
  split; [prove_valid_frame|].
  rewrite isolate_lines_store. vm_compute. reflexivity.
Qed.

(** C10, amended: on every valid frame [a] held at [img], [eq_histogram]
    returns the very location it was given and leaves in that buffer the
    frame [b] whose channels are the equalized channels of [a]; no other
    buffer changes; after [isolate_lines] the caller's buffer holds [b], so
    it keeps its pre-call pixel values exactly when equalization leaves the
    frame as it was. *)
Theorem eq_histogram_in_place {cv2 : CV2} self img (s : store) a :
  s !! img = Some a -> valid_frame a ->
  exists b,
    eq_histogram img s = (Ok img, <[img := b]> s) /\
    equalized_from a b /\
    (isolate_lines self img s).2 = <[img := b]> s /\
    (isolate_lines self img s).2 !! img = Some b /\
    ((isolate_lines self img s).2 !! img = s !! img <-> b = a).
Proof.
  intros Ha Hv. pose proof Hv as (Hwf & Hch & Hh & Hw).
  destruct (eq_histogram_valid img s a Ha Hwf Hh Hw) as (b & Heq & Hb); [lia|].
  exists b. rewrite isolate_lines_store, Heq. cbn [snd].
  rewrite lookup_insert_eq, Ha. split_and!; try done.
  split; congruence.
Qed.

Lemma eq_histogram_in_place_witness :
  exists b,
    eq_histogram (cv2:=opencv_ref) 0 store0 = (Ok 0, <[0 := b]> store0) /\
    equalized_from (H:=opencv_ref) frame0 b /\
    (isolate_lines (cv2:=opencv_ref) (__init__ None) 0 store0).2 = <[0 := b]> store0 /\
    (isolate_lines (cv2:=opencv_ref) (__init__ None) 0 store0).2 !! 0 = Some b /\
    ((isolate_lines (cv2:=opencv_ref) (__init__ None) 0 store0).2 !! 0 = store0 !! 0
     <-> b = frame0).
Proof.
  refine (eq_histogram_in_place (cv2:=opencv_ref) (__init__ None) 0 store0 frame0 _ _).
  - reflexivity.
  - prove_valid_frame.
Defined.

(** ** The reference implementation on the sample frames *)

Example equalizeHist_five_levels :
  Ref.equalizeHist (NdArray 1 5 [0; 1; 2; 2; 3]%Z)
  = Ok (NdArray 1 5 [0; 64; 191; 191; 255]%Z).
Proof. vm_compute. reflexivity. Qed.

Example eq_histogram_frame0 :
  eq_histogram (cv2:=opencv_ref) 0 store0
  = (Ok 0, {[ 0 := Image 2 2 3 [[0; 0; 0]; [170; 170; 170]; [85; 85; 85];
                                 [255; 255; 255]]%Z ]}).
Proof. vm_compute. reflexivity. Qed.

Example color_threshold_frame0 :
  (color_threshold (cv2:=opencv_ref) (__init__ None) 0 store0).1
  = Ok (NdArray 2 2 [0; 1; 0; 0]%Z).
Proof. vm_compute. reflexivity. Qed.

(** * Further properties of the code *)

(** ** Edge cases of the threshold utility *)

Lemma count_ones_zeros `{Dtype T} (l : list T) :
  length (filter (fun x => eqb x one = true) ((fun _ => zero) <$> l)) = 0.
Proof.
  induction l as [|x l IH]; [done|].
  rewrite fmap_cons, filter_cons, decide_False; [done|].
  by rewrite eqb_zero_one.
Qed.

Lemma count_ones_ones `{Dtype T} (l : list T) :
  length (filter (fun x => eqb x one = true) ((fun _ => one) <$> l)) = length l.
Proof.
  induction l as [|x l IH]; [done|].
  rewrite fmap_cons, filter_cons, decide_True by apply eqb_refl.
  cbn. by rewrite IH.
Qed.

(** X1: a range whose lower bound is not below its upper bound selects
    nothing: [_within_threshold] returns the all-zero map of the input's
    shape, with no sample set. *)
Theorem within_threshold_empty_range `{Dtype T} (array : ndarray T) (low high : T) :
  ~ le low high ->
  _within_threshold array (low, high) = zeros_like array /\
  count_ones (_within_threshold array (low, high)) = 0.
Proof.
  intros Hempty.
  assert (_within_threshold array (low, high) = zeros_like array) as E.
  { rewrite within_threshold_map. unfold zeros_like, np_map. f_equal.
    apply list_fmap_ext. intros i v _. apply thresh1_zero.
    apply not_true_iff_false. rewrite in_range_le; cbn. intros [Hl Hh].
    apply Hempty. by apply (le_trans low v high). }
  split; [done|]. rewrite E. unfold count_ones, zeros_like, np_map; cbn.
  apply count_ones_zeros.
Qed.

Lemma within_threshold_empty_range_witness :
  let m := NdArray 1 3 [0; 4; 9]%Z in
  _within_threshold m (5, 3)%Z = zeros_like m /\
  count_ones (_within_threshold m (5, 3)%Z) = 0.
Proof.
  intros m. refine (@within_threshold_empty_range Z uint8 m 5%Z 3%Z _).
  cbn; lia.
Defined.

(** X2: when every sample of the map lies in the range, [_within_threshold]
    returns the all-one map of the input's shape, and the number of set
    samples is the number of samples. *)
Theorem within_threshold_full_range `{Dtype T} (array : ndarray T) (low high : T) :
  Forall (fun v => le low v /\ le v high) (elems array) ->
  _within_threshold array (low, high) = np_map (fun _ => one) array /\
  count_ones (_within_threshold array (low, high)) = length (elems array).
Proof.
  intros Hall.
  assert (_within_threshold array (low, high) = np_map (fun _ => one) array) as E.
  { rewrite within_threshold_map. unfold np_map. f_equal.
    apply list_fmap_ext. intros i v Hv. apply thresh1_one, in_range_le; cbn.
    rewrite Forall_lookup in Hall. by apply (Hall i). }
  split; [done|]. rewrite E. unfold count_ones, np_map; cbn.
  apply count_ones_ones.
Qed.

Lemma within_threshold_full_range_witness :
  let m := NdArray 1 3 [120; 200; 255]%Z in
  _within_threshold m (120, 255)%Z = np_map (fun _ => 1%Z) m /\
  count_ones (_within_threshold m (120, 255)%Z) = 3.
Proof.
  intros m. refine (@within_threshold_full_range Z uint8 m 120%Z 255%Z _).
  repeat first [apply List.Forall_nil | apply List.Forall_cons; [cbn; lia|]].
Defined.

(** ** Magnitude and direction of the gradient *)

Lemma hypot_zero (dx dy : R) :
  sqrt (dx * dx + dy * dy) = 0%R <-> dx = 0%R /\ dy = 0%R.
Proof.
  split.
  - intros E. apply sqrt_eq_0 in E; [|nra]. split; nra.
  - intros [-> ->]. replace (0 * 0 + 0 * 0)%R with 0%R by lra. apply sqrt_0.
Qed.

Lemma sqrt_between (n lo hi : R) :
  (0 <= n)%R -> (0 <= lo)%R -> (0 <= hi)%R ->
  (lo <= sqrt n <= hi)%R <-> (lo * lo <= n <= hi * hi)%R.
Proof.
  intros Hn Hlo Hhi.
  rewrite <- (sqrt_square lo) at 1 by done.
  rewrite <- (sqrt_square hi) at 1 by done.
  split; intros [H1 H2]; split.
  - apply sqrt_le_0 in H1; [done|nra|done].
  - apply sqrt_le_0 in H2; [done|done|nra].
  - by apply sqrt_le_1_alt.
  - by apply sqrt_le_1_alt.
Qed.

Lemma magnitude_in_range lane_camera (dx dy : R) :
  in_range (MAG_THRESHOLD (__init__ lane_camera)) (sqrt (dx * dx + dy * dy)) = true
  <-> (900 <= dx * dx + dy * dy <= 55225)%R.
Proof.
  rewrite in_range_le. cbn.
  rewrite (sqrt_between (dx * dx + dy * dy) 30 235) by nra.
  replace (30 * 30)%R with 900%R by lra.
  replace (235 * 235)%R with 55225%R by lra. done.
Qed.

Lemma arctan2_zero (y x : R) :
  (0 <= y)%R -> (0 <= x)%R -> arctan2 y x = 0%R <-> y = 0%R.
Proof.
  intros Hy Hx. pose proof PI_RGT_0 as Hpi. unfold arctan2.
  destruct (Rlt_dec 0 x) as [Hpos|Hnpos].
  - split.
    + intros E. destruct (Rle_lt_or_eq_dec 0 y Hy) as [Hlt|Heq]; [|done].
      assert (0 < y / x)%R as Hq by (apply Rdiv_lt_0_compat; done).
      apply atan_increasing in Hq. rewrite atan_0 in Hq. lra.
    + intros ->. unfold Rdiv. rewrite Rmult_0_l. apply atan_0.
  - destruct (Rlt_dec x 0) as [Hneg|_]; [lra|].
    destruct (Rlt_dec 0 y) as [Hlt|Hnlt]; [lra|].
    destruct (Rlt_dec y 0) as [Hyneg|_]; [lra|]. split; [lra|done].
Qed.

Lemma arctan2_right_angle (y x : R) :
  (0 <= y)%R -> (0 <= x)%R ->
  arctan2 y x = (PI / 2)%R <-> x = 0%R /\ y <> 0%R.
Proof.
  intros Hy Hx. pose proof PI_RGT_0 as Hpi. unfold arctan2.
  destruct (Rlt_dec 0 x) as [Hpos|Hnpos].
  - pose proof (atan_bound (y / x)) as [_ Hb]. split; [lra|]. intros [-> _]. lra.
  - destruct (Rlt_dec x 0) as [Hneg|_]; [lra|].
    destruct (Rlt_dec 0 y) as [Hlt|Hnlt]; [split; [lra|done]|].
    destruct (Rlt_dec y 0) as [Hyneg|_]; [lra|]. split; [lra|].
    intros [_ Hne]. lra.
Qed.

Lemma magnitude_lookup (grad_x grad_y : ndarray R) i dx dy :
  elems grad_x !! i = Some dx -> elems grad_y !! i = Some dy ->
  elems (np_sqrt (np_add (np_square grad_x) (np_square grad_y))) !! i
  = Some (sqrt (dx * dx + dy * dy)).
Proof.
  intros Hx Hy. np_unfold.
  rewrite list_lookup_fmap, lookup_zip_with, !list_lookup_fmap, Hx, Hy. done.
Qed.

Lemma direction_lookup_at (grad_x grad_y : ndarray R) i dx dy :
  elems grad_x !! i = Some dx -> elems grad_y !! i = Some dy ->
  elems (np_arctan2 (np_absolute grad_y) (np_absolute grad_x)) !! i
  = Some (arctan2 (Rabs dy) (Rabs dx)).
Proof.
  intros Hx Hy. np_unfold.
  rewrite lookup_zip_with, !list_lookup_fmap, Hx, Hy. done.
Qed.

Lemma Rabs_zero_iff (x : R) : Rabs x = 0%R <-> x = 0%R.
Proof.
  split; [|intros ->; apply Rabs_R0].
  intros E. destruct (Req_dec x 0) as [|Hne]; [done|].
  by apply Rabs_no_R0 in Hne.
Qed.

(** X3: on a non-empty grey map, [_gradient_mag] returns a map of the same
    size whose sample at each position is the square root of the sum of the
    squares of the two derivatives there; it is never negative, and it is
    zero exactly where both derivatives are zero. *)
Theorem gradient_mag_samples {cv2 : CV2} (gray : ndarray Z) h w :
  sized h w gray -> 0 < h -> 0 < w ->
  exists grad_x grad_y magnitude,
    _gradients gray = Ok (grad_x, grad_y) /\
    _gradient_mag gray = Ok magnitude /\
    sized h w magnitude /\
    forall i, i < h * w ->
      exists dx dy m,
        elems grad_x !! i = Some dx /\ elems grad_y !! i = Some dy /\
        elems magnitude !! i = Some m /\
        m = sqrt (dx * dx + dy * dy) /\
        (0 <= m)%R /\
        (m = 0%R <-> dx = 0%R /\ dy = 0%R).
Proof.
  intros Sg Hh Hw.
  destruct (gradients_valid gray h w Sg Hh Hw) as (gx & gy & _ & _ & Sx & Sy & Hgr).
  exists gx, gy, (np_sqrt (np_add (np_square gx) (np_square gy))).
  split; [done|]. split; [unfold _gradient_mag; by rewrite Hgr|].
  split; [solve_sized|].
  intros i Hi.
  destruct (sized_lookup _ _ _ i Sx Hi) as [dx Ex].
  destruct (sized_lookup _ _ _ i Sy Hi) as [dy Ey].
  exists dx, dy, (sqrt (dx * dx + dy * dy)).
  rewrite (magnitude_lookup _ _ i dx dy Ex Ey).
  split_and!; try done; [apply sqrt_pos | apply hypot_zero..].
Qed.

Lemma gradient_mag_samples_witness :
  let gray := NdArray 2 3 [10; 200; 30; 40; 50; 250]%Z in
  exists grad_x grad_y magnitude,
    _gradients (cv2:=opencv_ref) gray = Ok (grad_x, grad_y) /\
    _gradient_mag (cv2:=opencv_ref) gray = Ok magnitude /\
    sized 2 3 magnitude /\
    forall i, i < 2 * 3 ->
      exists dx dy m,
        elems grad_x !! i = Some dx /\ elems grad_y !! i = Some dy /\
        elems magnitude !! i = Some m /\
        m = sqrt (dx * dx + dy * dy) /\
        (0 <= m)%R /\
        (m = 0%R <-> dx = 0%R /\ dy = 0%R).
Proof.
  intros gray. refine (gradient_mag_samples (cv2:=opencv_ref) gray 2 3 _ _ _).
  - split; reflexivity.
  - lia.
  - lia.
Defined.

(** X4: on a non-empty grey map, [_gradient_dir] returns a map of the same
    size whose sample at each position is [arctan2] of the absolute values
    of the two derivatives there: it is 0 exactly where the vertical
    derivative is zero, and pi/2 exactly where the horizontal derivative is
    zero and the vertical one is not. *)
Theorem gradient_dir_samples {cv2 : CV2} (gray : ndarray Z) h w :
  sized h w gray -> 0 < h -> 0 < w ->
  exists grad_x grad_y direction,
    _gradients gray = Ok (grad_x, grad_y) /\
    _gradient_dir gray = Ok direction /\
    sized h w direction /\
    forall i, i < h * w ->
      exists dx dy d,
        elems grad_x !! i = Some dx /\ elems grad_y !! i = Some dy /\
        elems direction !! i = Some d /\
        d = arctan2 (Rabs dy) (Rabs dx) /\
        (d = 0%R <-> dy = 0%R) /\
        (d = (PI / 2)%R <-> dx = 0%R /\ dy <> 0%R).
Proof.
  intros Sg Hh Hw.
  destruct (gradients_valid gray h w Sg Hh Hw) as (gx & gy & _ & _ & Sx & Sy & Hgr).
  exists gx, gy, (np_arctan2 (np_absolute gy) (np_absolute gx)).
  split; [done|]. split; [unfold _gradient_dir; by rewrite Hgr|].
  split; [solve_sized|].
  intros i Hi.
  destruct (sized_lookup _ _ _ i Sx Hi) as [dx Ex].
  destruct (sized_lookup _ _ _ i Sy Hi) as [dy Ey].
  exists dx, dy, (arctan2 (Rabs dy) (Rabs dx)).
  rewrite (direction_lookup_at _ _ i dx dy Ex Ey).
  do 4 (split; [done|]). split.
  - rewrite arctan2_zero by apply Rabs_pos. apply Rabs_zero_iff.
  - rewrite arctan2_right_angle by apply Rabs_pos.
    by rewrite !Rabs_zero_iff.
Qed.

Lemma gradient_dir_samples_witness :
  let gray := NdArray 2 3 [10; 200; 30; 40; 50; 250]%Z in
  exists grad_x grad_y direction,
    _gradients (cv2:=opencv_ref) gray = Ok (grad_x, grad_y) /\
    _gradient_dir (cv2:=opencv_ref) gray = Ok direction /\
    sized 2 3 direction /\
    forall i, i < 2 * 3 ->
      exists dx dy d,
        elems grad_x !! i = Some dx /\ elems grad_y !! i = Some dy /\
        elems direction !! i = Some d /\
        d = arctan2 (Rabs dy) (Rabs dx) /\
        (d = 0%R <-> dy = 0%R) /\
        (d = (PI / 2)%R <-> dx = 0%R /\ dy <> 0%R).
Proof.
  intros gray. refine (gradient_dir_samples (cv2:=opencv_ref) gray 2 3 _ _ _).
  - split; reflexivity.
  - lia.
  - lia.
Defined.

(** X5: under the default configuration the gradient selector sets a pixel
    exactly when the sum of the squares of its two Sobel derivatives lies
    in [900, 55225]; in particular a pixel where both derivatives vanish is
    never set. *)
Theorem gradient_threshold_squares {cv2 : CV2} lane_camera img (s : store) a :
  s !! img = Some a -> valid_frame a ->
  exists gray grad_x grad_y mask,
    cvtColor_BGR2GRAY a = Ok gray /\
    _gradients gray = Ok (grad_x, grad_y) /\
    gradient_threshold (__init__ lane_camera) img s = (Ok mask, s) /\
    forall i, i < height a * width a ->
      exists dx dy,
        elems grad_x !! i = Some dx /\ elems grad_y !! i = Some dy /\
        (elems mask !! i = Some 1%R <-> (900 <= dx * dx + dy * dy <= 55225)%R) /\
        (elems mask !! i = Some 0%R <-> ~ (900 <= dx * dx + dy * dy <= 55225)%R) /\
        (dx = 0%R -> dy = 0%R -> elems mask !! i = Some 0%R).
Proof.
  intros Ha Hv.
  destruct (gradient_threshold_valid (__init__ lane_camera) img s a Ha Hv)
    as (gray & gx & gy & Hgray & Hgr & _ & _ & Sx & Sy & Hrun).
  cbn zeta in Hrun.
  exists gray, gx, gy. eexists. split_and!; [done..|].
  intros i Hi.
  destruct (sized_lookup _ _ _ i Sx Hi) as [dx Ex].
  destruct (sized_lookup _ _ _ i Sy Hi) as [dy Ey].
  exists dx, dy. do 2 (split; [done|]).
  rewrite (gradient_mask_lookup (__init__ lane_camera) _ _ i _ _
             (magnitude_lookup _ _ i dx dy Ex Ey) (direction_lookup_at _ _ i dx dy Ex Ey)).
  assert (gradient_rule (__init__ lane_camera) (sqrt (dx * dx + dy * dy))
            (arctan2 (Rabs dy) (Rabs dx)) = true
          <-> (900 <= dx * dx + dy * dy <= 55225)%R) as Hrule.
  { unfold gradient_rule.
    rewrite (direction_in_range lane_camera), andb_true_r.
    apply magnitude_in_range. }
  split; [|split].
  - rewrite <- Hrule. apply (@Some_bit_one R float64).
  - rewrite <- Hrule. apply (@Some_bit_zero R float64).
  - intros -> ->. apply (@Some_bit_zero R float64). rewrite Hrule. lra.
Qed.

Lemma gradient_threshold_squares_witness :
  exists gray grad_x grad_y mask,
    Ref.cvtColor_BGR2GRAY frame0 = Ok gray /\
    _gradients (cv2:=opencv_ref) gray = Ok (grad_x, grad_y) /\
    gradient_threshold (cv2:=opencv_ref) (__init__ None) 0 store0 = (Ok mask, store0) /\
    forall i, i < 2 * 2 ->
      exists dx dy,
        elems grad_x !! i = Some dx /\ elems grad_y !! i = Some dy /\
        (elems mask !! i = Some 1%R <-> (900 <= dx * dx + dy * dy <= 55225)%R) /\
        (elems mask !! i = Some 0%R <-> ~ (900 <= dx * dx + dy * dy <= 55225)%R) /\
        (dx = 0%R -> dy = 0%R -> elems mask !! i = Some 0%R).
Proof.
  refine (gradient_threshold_squares (cv2:=opencv_ref) None 0 store0 frame0 _ _).
  - reflexivity.
  - prove_valid_frame.
Defined.

(** ** What a run does to the store *)

Lemma same_dims_refl a : same_dims a a.
Proof. by split_and!. Qed.

Lemma same_dims_trans a b c : same_dims a b -> same_dims b c -> same_dims a c.
Proof. intros (?&?&?) (?&?&?). split_and!; congruence. Qed.

Lemma frame_only_refl img (s : store) : frame_only img s s.
Proof.
  split; [done|]. destruct (s !! img) as [a|] eqn:E; [|done].
  exists a. split; [done|apply same_dims_refl].
Qed.

Lemma frame_only_trans img (s1 s2 s3 : store) :
  frame_only img s1 s2 -> frame_only img s2 s3 -> frame_only img s1 s3.
Proof.
  intros [O12 F12] [O23 F23]. split.
  - intros l Hl. by rewrite O23, O12.
  - destruct (s1 !! img) as [a|].
    + destruct F12 as (b & Eb & Dab). rewrite Eb in F23.
      destruct F23 as (c & Ec & Dbc). exists c. split; [done|].
      by apply (same_dims_trans a b c).
    + by rewrite F12 in F23.
Qed.

Lemma frame_only_insert img (s : store) a b :
  s !! img = Some a -> same_dims a b -> frame_only img s (<[img := b]> s).
Proof.
  intros Ha Hd. split.
  - intros l Hl. by rewrite lookup_insert_ne.
  - rewrite Ha. exists b. by rewrite lookup_insert_eq.
Qed.

Lemma set_channel_dims a c v b : set_channel a c v = Ok b -> same_dims a b.
Proof.
  unfold set_channel. repeat case_decide; try done.
  intros [= <-]. by split_and!.
Qed.

Lemma bind_frame_only {A B} img (m : M A) (k : A -> M B) (s : store) :
  (forall s, frame_only img s (m s).2) ->
  (forall x s, frame_only img s (k x s).2) ->
  frame_only img s (bind m k s).2.
Proof.
  intros Hm Hk. unfold bind. specialize (Hm s).
  destruct (m s) as [[x|e] s']; cbn in *; [|done].
  by apply (frame_only_trans img s s').
Qed.

Section StoreEffects.
Context {cv2 : CV2}.
Variable self : LaneIsolator.

Lemma channel_equalized_dims a c b :
  channel_equalized a c = Ok b -> same_dims a b.
Proof.
  unfold channel_equalized.
  destruct (get_channel a c) as [v|]; cbn; [|done].
  destruct (equalizeHist v) as [e|]; cbn; [|done].
  apply set_channel_dims.
Qed.

Lemma equalize_channel_frame_only img c (s : store) :
  frame_only img s (equalize_channel img c s).2.
Proof.
  destruct (s !! img) as [a|] eqn:Ha.
  - rewrite (equalize_channel_run _ _ _ _ Ha).
    destruct (channel_equalized a c) as [b|e] eqn:E; cbn; [|apply frame_only_refl].
    apply (frame_only_insert img s a b Ha). by apply (channel_equalized_dims a c).
  - rewrite (equalize_channel_unbound _ _ _ Ha). apply frame_only_refl.
Qed.

Lemma eq_histogram_frame_only img (s : store) :
  frame_only img s (eq_histogram img s).2.
Proof.
  unfold eq_histogram.
  do 3 (apply bind_frame_only; [apply equalize_channel_frame_only | intros _; clear s; intros s]).
  apply frame_only_refl.
Qed.

Lemma isolate_lines_frame_only img (s : store) :
  frame_only img s (isolate_lines self img s).2.
Proof. rewrite isolate_lines_store. apply eq_histogram_frame_only. Qed.

End StoreEffects.

(** X6: whatever the frame and whatever the outcome (a mask or an
    exception), a call of [isolate_lines] changes no buffer other than the
    one it was given. *)
Theorem isolate_lines_other_buffers {cv2 : CV2} self img (s : store) :
  forall l, l <> img -> (isolate_lines self img s).2 !! l = s !! l.
Proof. apply (isolate_lines_frame_only self img s). Qed.

Lemma isolate_lines_other_buffers_witness :
  (isolate_lines (cv2:=opencv_ref) (__init__ None) 5 store1).2 !! 3 = store1 !! 3.
Proof.
  refine (isolate_lines_other_buffers (cv2:=opencv_ref) (__init__ None) 5 store1 3 _).
  lia.
Defined.

(** X7: whatever the outcome, the caller's buffer still holds a frame of
    the same height, width and number of channels after a call of
    [isolate_lines]: the in-place equalization overwrites samples and never
    resizes the frame. *)
Theorem isolate_lines_keeps_dimensions {cv2 : CV2} self img (s : store) a :
  s !! img = Some a ->
  exists b, (isolate_lines self img s).2 !! img = Some b /\
            height b = height a /\ width b = width a /\ channels b = channels a.
Proof.
  intros Ha. destruct (isolate_lines_frame_only self img s) as [_ Hf].
  by rewrite Ha in Hf.
Qed.

Lemma isolate_lines_keeps_dimensions_witness :
  exists b,
    (isolate_lines (cv2:=opencv_ref) (__init__ None) 0 {[ 0 := frame_2ch ]}).2 !! 0
    = Some b /\
    height b = 1 /\ width b = 2 /\ channels b = 2.
Proof.
  refine (isolate_lines_keeps_dimensions (cv2:=opencv_ref) (__init__ None) 0
            {[ 0 := frame_2ch ]} frame_2ch _).
  reflexivity.
Defined.

(** X8: the two selectors only read: whatever the outcome, the store after
    [color_threshold] or [gradient_threshold] is the store before, the
    frame they were given included. *)
Theorem selectors_read_only {cv2 : CV2} self img (s : store) :
  (color_threshold self img s).2 = s /\ (gradient_threshold self img s).2 = s.
Proof.
  split; [apply color_threshold_store | apply gradient_threshold_store].
Qed.

(** ** Frames with more or fewer than three channels *)

Section ChannelCount.
Context {cv2 : CV2}.
Variable self : LaneIsolator.

Lemma step_length (e : ndarray Z) a :
  image_wf a -> wf e -> shape e = (height a, width a) ->
  length (elems e) = length (pixels a).
Proof. intros [Hlen _] We Se. by rewrite (wf_length _ _ _ We Se). Qed.

Lemma eq_histogram_other_channels img (s : store) a :
  s !! img = Some a ->
  image_wf a -> 0 < height a -> 0 < width a -> 3 <= channels a ->
  exists b, eq_histogram img s = (Ok img, <[img := b]> s) /\
            forall c, 3 <= c -> chan c (pixels b) = chan c (pixels a).
Proof.
  intros Ha Hwf Hh Hw Hc. unfold eq_histogram.
  destruct (equalize_channel_step img 0 s a) as (e0 & _ & Hs0 & Hw0 & R0);
    [done..|lia|].
  set (a1 := Image _ _ _ _) in R0.
  assert (image_wf a1) as Hwf1 by by apply put_chan_wf.
  destruct (equalize_channel_step img 1 (<[img:=a1]> s) a1) as (e1 & _ & Hs1 & Hw1 & R1);
    [apply lookup_insert_eq|done..|cbn; lia|].
  set (a2 := Image _ _ _ _) in R1.
  assert (image_wf a2) as Hwf2 by by apply (put_chan_wf a1).
  destruct (equalize_channel_step img 2 (<[img:=a2]> (<[img:=a1]> s)) a2)
    as (e2 & _ & Hs2 & Hw2 & R2); [apply lookup_insert_eq|done..|cbn; lia|].
  set (a3 := Image _ _ _ _) in R2.
  exists a3. split.
  - rewrite (bind_ok _ _ _ _ _ R0), (bind_ok _ _ _ _ _ R1), (bind_ok _ _ _ _ _ R2).
    unfold ret. by rewrite !insert_insert_eq.
  - intros c Hc3.
    change (pixels a3) with (put_chan 2 (pixels a2) (elems e2)).
    rewrite chan_put_chan_other; [|lia|by apply step_length].
    change (pixels a2) with (put_chan 1 (pixels a1) (elems e1)).
    rewrite chan_put_chan_other; [|lia|by apply step_length].
    change (pixels a1) with (put_chan 0 (pixels a) (elems e0)).
    rewrite chan_put_chan_other; [done|lia|by apply step_length].
Qed.

(** The run of [eq_histogram] on a non-empty frame with [channels a < 3]:
    the channels that exist are equalized, then the access to channel
    [channels a] fails. *)
Lemma eq_histogram_partial img (s : store) a :
  s !! img = Some a ->
  image_wf a -> 0 < height a -> 0 < width a -> channels a < 3 ->
  exists b,
    eq_histogram img s = (Raise IndexError, <[img := b]> s) /\
    same_dims a b /\
    forall c, c < channels a ->
      exists e, equalizeHist (NdArray (height a) (width a) (chan c (pixels a))) = Ok e /\
                chan c (pixels b) = elems e.
Proof.
  intros Ha Hwf Hh Hw Hc. unfold eq_histogram.
  destruct (decide (channels a = 0)) as [C0|C0].
  { exists a. rewrite (insert_id s img a Ha). split_and!.
    - eapply bind_raise, equalize_channel_index_error; [done|lia].
    - apply same_dims_refl.
    - intros c Hlt. lia. }
  destruct (equalize_channel_step img 0 s a) as (e0 & He0 & Hs0 & Hw0 & R0);
    [done..|lia|].
  set (a1 := Image _ _ _ _) in R0.
  assert (image_wf a1) as Hwf1 by by apply put_chan_wf.
  assert (chan 0 (pixels a1) = elems e0) as C00.
  { apply (chan_put_chan_same _ (channels a)); [lia|apply Hwf|by apply step_length]. }
  rewrite (bind_ok _ _ _ _ _ R0).
  destruct (decide (channels a = 1)) as [C1|C1].
  { exists a1. split_and!.
    - eapply bind_raise, (equalize_channel_index_error _ _ _ a1);
        [apply lookup_insert_eq|cbn; lia].
    - by split_and!.
    - intros c Hlt. assert (c = 0) as -> by lia. by exists e0. }
  destruct (equalize_channel_step img 1 (<[img:=a1]> s) a1) as (e1 & He1 & Hs1 & Hw1 & R1);
    [apply lookup_insert_eq|done..|cbn; lia|].
  set (a2 := Image _ _ _ _) in R1.
  rewrite (bind_ok _ _ _ _ _ R1).
  assert (chan 1 (pixels a1) = chan 1 (pixels a)) as C11.
  { apply chan_put_chan_other; [done|by apply step_length]. }
  change (height a1) with (height a) in He1. change (width a1) with (width a) in He1.
  rewrite C11 in He1.
  exists a2. split_and!.
  - rewrite (bind_raise _ _ _ IndexError (<[img:=a2]> (<[img:=a1]> s)));
      [by rewrite insert_insert_eq|].
    apply (equalize_channel_index_error _ _ _ a2); [apply lookup_insert_eq|cbn; lia].
  - by split_and!.
  - intros c Hlt. assert (c = 0 \/ c = 1) as [-> | ->] by lia.
    + exists e0. split; [done|].
      change (pixels a2) with (put_chan 1 (pixels a1) (elems e1)).
      rewrite chan_put_chan_other; [done|done|by apply step_length].
    + exists e1. split; [done|].
      apply (chan_put_chan_same _ (channels a)); [lia|apply Hwf1|by apply step_length].
Qed.

End ChannelCount.

(** X9: on a non-empty frame with more than three channels [eq_histogram]
    still succeeds: it equalizes channels 0, 1 and 2 and leaves every
    further channel (an alpha channel, say) exactly as it was. *)
Theorem eq_histogram_extra_channels {cv2 : CV2} img (s : store) a :
  s !! img = Some a ->
  image_wf a -> 0 < height a -> 0 < width a -> 3 <= channels a ->
  exists b,
    eq_histogram img s = (Ok img, <[img := b]> s) /\
    equalized_from a b /\
    forall c, 3 <= c -> chan c (pixels b) = chan c (pixels a).
Proof.
  intros Ha Hwf Hh Hw Hc.
  destruct (eq_histogram_valid img s a Ha Hwf Hh Hw Hc) as (b & Hrun & Heq).
  destruct (eq_histogram_other_channels img s a Ha Hwf Hh Hw Hc) as (b' & Hrun' & Hoth).
  exists b. split_and!; [done..|].
  rewrite Hrun in Hrun'. injection Hrun' as E.
  assert (b = b') as ->; [|done].
  apply (f_equal (fun m : store => m !! img)) in E.
  rewrite !lookup_insert_eq in E. congruence.
Qed.

Lemma eq_histogram_extra_channels_witness :
  exists b,
    eq_histogram (cv2:=opencv_ref) 0 {[ 0 := frame_bgra ]}
    = (Ok 0, <[0 := b]> {[ 0 := frame_bgra ]}) /\
    equalized_from (H:=opencv_ref) frame_bgra b /\
    forall c, 3 <= c -> chan c (pixels b) = chan c (pixels frame_bgra).
Proof.
  refine (eq_histogram_extra_channels (cv2:=opencv_ref) 0
            {[ 0 := frame_bgra ]} frame_bgra _ _ _ _ _).
  - reflexivity.
  - split; cbn; [done|].
    repeat first [apply List.Forall_nil | apply List.Forall_cons; [done|]].
  - cbn; lia.
  - cbn; lia.
  - cbn; lia.
Defined.

(** X10: on a non-empty frame with fewer than three channels,
    [isolate_lines] ends in the [IndexError] of the first missing channel,
    and the store it leaves is fully determined: the caller's buffer keeps
    its dimensions, each channel that exists holds its equalized samples,
    and with no channel at all the buffer is untouched. *)
Theorem isolate_lines_partial_equalization {cv2 : CV2} self img (s : store) a :
  s !! img = Some a ->
  image_wf a -> 0 < height a -> 0 < width a -> channels a < 3 ->
  exists b,
    isolate_lines self img s = (Raise IndexError, <[img := b]> s) /\
    height b = height a /\ width b = width a /\ channels b = channels a /\
    (channels a = 0 -> b = a) /\
    forall c, c < channels a ->
      exists e, equalizeHist (NdArray (height a) (width a) (chan c (pixels a))) = Ok e /\
                chan c (pixels b) = elems e.
Proof.
  intros Ha Hwf Hh Hw Hc.
  destruct (eq_histogram_partial img s a Ha Hwf Hh Hw Hc) as (b & Hrun & (Dh & Dw & Dc) & Hch).
  exists b. split_and!; try done.
  - unfold isolate_lines. by apply bind_raise.
  - intros C0. destruct (decide (channels a = 0)) as [_|]; [|done].
    destruct (eq_histogram_index_error img s a Ha Hwf Hh Hw Hc) as [s' Hs'].
    assert (eq_histogram img s = (Raise IndexError, s)) as Hs0.
    { unfold eq_histogram. eapply bind_raise, equalize_channel_index_error; [done|lia]. }
    rewrite Hs0 in Hrun. injection Hrun as E.
    apply (f_equal (fun m : store => m !! img)) in E.
    rewrite lookup_insert_eq, Ha in E. congruence.
Qed.

Lemma isolate_lines_partial_equalization_witness :
  exists b,
    isolate_lines (cv2:=opencv_ref) (__init__ None) 0 {[ 0 := frame_2ch ]}
    = (Raise IndexError, <[0 := b]> {[ 0 := frame_2ch ]}) /\
    height b = 1 /\ width b = 2 /\ channels b = 2 /\
    (2 = 0 -> b = frame_2ch) /\
    forall c, c < 2 ->
      exists e, Ref.equalizeHist (NdArray 1 2 (chan c (pixels frame_2ch))) = Ok e /\
                chan c (pixels b) = elems e.
Proof.
  refine (isolate_lines_partial_equalization (cv2:=opencv_ref) (__init__ None) 0
            {[ 0 := frame_2ch ]} frame_2ch _ _ _ _ _).
  - reflexivity.
  - split; cbn; [done|].
    repeat first [apply List.Forall_nil | apply List.Forall_cons; [done|]].
  - cbn; lia.
  - cbn; lia.
  - cbn; lia.
Defined.

(** ** Counting the selected pixels *)

Lemma count_ones_pointwise `{Dtype T} (l1 l2 : list T) :
  length l1 = length l2 ->
  (forall i x y, l1 !! i = Some x -> l2 !! i = Some y ->
                 eqb x one = true -> eqb y one = true) ->
  length (filter (fun x => eqb x one = true) l1)
  <= length (filter (fun x => eqb x one = true) l2).
Proof.
  revert l2. induction l1 as [|x l1 IH]; intros [|y l2] Hlen Hp; try done.
  rewrite !filter_cons.
  assert (length (filter (fun x => eqb x one = true) l1)
          <= length (filter (fun x => eqb x one = true) l2)) as Hrec.
  { apply IH; [cbn in Hlen; lia|]. intros i. apply (Hp (S i)). }
  specialize (Hp 0 x y eq_refl eq_refl).
  destruct (eqb x one) eqn:Ex.
  - rewrite Hp by done. rewrite !decide_True by done. cbn. lia.
  - rewrite (decide_False (P:=false = true)) by done. case_decide; cbn; lia.
Qed.

Lemma final_mask_elems (color_select : ndarray Z) (grad_select : ndarray R) :
  elems (set_ones (zeros_like color_select)
           (np_or (np_eq1 color_select) (np_eq1 grad_select)))
  = zip_with (fun c g => bit (eqb c one || eqb g one))
      (elems color_select) (elems grad_select).
Proof.
  np_unfold. apply list_eq. intros i.
  rewrite !lookup_zip_with, !list_lookup_fmap.
  destruct (elems color_select !! i), (elems grad_select !! i); done.
Qed.

Lemma count_union (c : list Z) (g : list R) :
  length c = length g ->
  let f := zip_with (fun x y => bit (eqb x one || eqb y one) : Z) c g in
  length (filter (fun x => eqb x one = true) c)
    <= length (filter (fun x => eqb x one = true) f) /\
  length (filter (fun x => eqb x one = true) g)
    <= length (filter (fun x => eqb x one = true) f) /\
  length (filter (fun x => eqb x one = true) f)
    <= length (filter (fun x => eqb x one = true) c)
       + length (filter (fun x => eqb x one = true) g).
Proof.
  revert g. induction c as [|x c IH]; intros [|y g] Hlen; try done.
  cbn zeta in *. cbn [zip_with]. rewrite !filter_cons.
  specialize (IH g ltac:(cbn in Hlen; lia)) as (I1 & I2 & I3).
  rewrite (@eqb_bit Z uint8).
  destruct (eqb x one), (eqb y one); cbn [orb];
    repeat first [rewrite decide_True by done
                 | rewrite (decide_False (P:=false = true)) by done];
    cbn [length]; lia.
Qed.

Lemma mask_sub_lookup `{Dtype T} (m1 m2 : ndarray T) i :
  mask_sub m1 m2 ->
  elems m1 !! i = Some one -> elems m2 !! i = Some one.
Proof.
  intros [Hlen Hp] E1.
  destruct (elems m2 !! i) as [y|] eqn:E2.
  - f_equal. apply eqb_eq. apply (Hp i one y E1 E2). apply eqb_refl.
  - apply lookup_lt_Some in E1. apply lookup_ge_None in E2. lia.
Qed.

Lemma mask_sub_count `{Dtype T} (m1 m2 : ndarray T) :
  mask_sub m1 m2 -> count_ones m1 <= count_ones m2.
Proof. intros [Hlen Hp]. by apply count_ones_pointwise. Qed.

(** ** Widening the configuration *)

Lemma in_range_sub `{Dtype T} (th1 th2 : T * T) v :
  range_sub th1 th2 -> in_range th1 v = true -> in_range th2 v = true.
Proof.
  destruct th1 as [l1 h1], th2 as [l2 h2]. intros [Hl Hh].
  by apply in_range_widen.
Qed.

Lemma color_rule_sub self1 self2 l s b :
  config_sub self1 self2 ->
  color_rule self1 l s b = true -> color_rule self2 l s b = true.
Proof.
  intros (HL & HS & HB & _). unfold color_rule.
  rewrite !orb_true_iff, !andb_true_iff.
  intros [[Hl Hs]|Hb]; [left; split|right]; eapply in_range_sub; eauto.
Qed.

Lemma gradient_rule_sub self1 self2 m d :
  config_sub self1 self2 ->
  gradient_rule self1 m d = true -> gradient_rule self2 m d = true.
Proof.
  intros (_ & _ & _ & HM & HD). unfold gradient_rule.
  rewrite !andb_true_iff. intros [Hm Hd]. split; eapply in_range_sub; eauto.
Qed.

Section Widening.
Context {cv2 : CV2}.
Variables self1 self2 : LaneIsolator.
Hypothesis Hsub : config_sub self1 self2.

Lemma color_threshold_sub img (s : store) a :
  s !! img = Some a -> valid_frame a ->
  exists m1 m2,
    color_threshold self1 img s = (Ok m1, s) /\
    color_threshold self2 img s = (Ok m2, s) /\
    mask_sub m1 m2.
Proof using Hsub.
  intros Ha Hv.
  destruct (color_threshold_valid self1 img s a Ha Hv)
    as (l & sc & b & Hl & Hs & Hb & Sl & Ss & Sb & R1).
  destruct (color_threshold_valid self2 img s a Ha Hv)
    as (l' & sc' & b' & Hl' & Hs' & Hb' & _ & _ & _ & R2).
  assert (l' = l) as -> by congruence.
  assert (sc' = sc) as -> by congruence.
  assert (b' = b) as -> by congruence.
  eexists _, _. split; [done|]. split; [done|]. split.
  - rewrite !(sized_length _ (height a) (width a)); [done|solve_sized..].
  - intros i x y E1 E2.
    assert (i < height a * width a) as Hi.
    { apply lookup_lt_Some in E1.
      rewrite (sized_length _ (height a) (width a)) in E1; [done|solve_sized]. }
    destruct (sized_lookup _ _ _ i Sl Hi) as [lv El].
    destruct (sized_lookup _ _ _ i Ss Hi) as [sv Es].
    destruct (sized_lookup _ _ _ i Sb Hi) as [bv Eb].
    rewrite (color_mask_lookup self1 _ _ _ i lv sv bv El Es Eb) in E1.
    rewrite (color_mask_lookup self2 _ _ _ i lv sv bv El Es Eb) in E2.
    injection E1 as <-. injection E2 as <-.
    rewrite !(@eqb_bit Z uint8). by apply color_rule_sub.
Qed.

Lemma gradient_threshold_sub img (s : store) a :
  s !! img = Some a -> valid_frame a ->
  exists m1 m2,
    gradient_threshold self1 img s = (Ok m1, s) /\
    gradient_threshold self2 img s = (Ok m2, s) /\
    mask_sub m1 m2.
Proof using Hsub.
  intros Ha Hv.
  destruct (gradient_threshold_valid self1 img s a Ha Hv)
    as (gray & gx & gy & Hg & Hgr & _ & _ & Sx & Sy & R1).
  destruct (gradient_threshold_valid self2 img s a Ha Hv)
    as (gray' & gx' & gy' & Hg' & Hgr' & _ & _ & _ & _ & R2).
  assert (gray' = gray) as -> by congruence.
  assert (gx' = gx) as -> by congruence.
  assert (gy' = gy) as -> by congruence.
  cbn zeta in R1, R2.
  eexists _, _. split; [done|]. split; [done|]. split.
  - rewrite !(sized_length _ (height a) (width a)); [done|solve_sized..].
  - intros i x y E1 E2.
    assert (i < height a * width a) as Hi.
    { apply lookup_lt_Some in E1.
      rewrite (sized_length _ (height a) (width a)) in E1; [done|solve_sized]. }
    destruct (sized_lookup _ _ _ i Sx Hi) as [dx Ex].
    destruct (sized_lookup _ _ _ i Sy Hi) as [dy Ey].
    pose proof (magnitude_lookup _ _ i dx dy Ex Ey) as Em.
    pose proof (direction_lookup_at _ _ i dx dy Ex Ey) as Ed.
    rewrite (gradient_mask_lookup self1 _ _ i _ _ Em Ed) in E1.
    rewrite (gradient_mask_lookup self2 _ _ i _ _ Em Ed) in E2.
    injection E1 as <-. injection E2 as <-.
    rewrite !(@eqb_bit R float64). by apply gradient_rule_sub.
Qed.

End Widening.

Lemma final_mask_sub (c1 c2 : ndarray Z) (g1 g2 : ndarray R) :
  length (elems c1) = length (elems g1) ->
  mask_sub c1 c2 -> mask_sub g1 g2 ->
  mask_sub (set_ones (zeros_like c1) (np_or (np_eq1 c1) (np_eq1 g1)))
           (set_ones (zeros_like c2) (np_or (np_eq1 c2) (np_eq1 g2))).
Proof.
  intros Hcg [Lc Pc] [Lg Pg]. split.
  - rewrite !final_mask_elems, !length_zip_with. lia.
  - intros i x y. rewrite !final_mask_elems, !lookup_zip_with_Some.
    intros (a1 & b1 & -> & Ea1 & Eb1) (a2 & b2 & -> & Ea2 & Eb2).
    rewrite !(@eqb_bit Z uint8), !orb_true_iff.
    intros [H|H]; [left; by apply (Pc i a1 a2) | right; by apply (Pg i b1 b2)].
Qed.

(** X11: widening threshold ranges of the configuration never clears a
    pixel.  For two isolators where every range of the first lies inside
    the matching range of the second, run on the same valid frame: every
    pixel set in the colour mask, the gradient mask or the final mask of
    the first is set in the same mask of the second, and the number of set
    pixels of each mask does not decrease. *)
Theorem widening_keeps_pixels {cv2 : CV2} self1 self2 img (s : store) a :
  config_sub self1 self2 ->
  s !! img = Some a -> valid_frame a ->
  exists b c1 c2 g1 g2 f1 f2,
    color_threshold self1 img (<[img := b]> s) = (Ok c1, <[img := b]> s) /\
    color_threshold self2 img (<[img := b]> s) = (Ok c2, <[img := b]> s) /\
    gradient_threshold self1 img (<[img := b]> s) = (Ok g1, <[img := b]> s) /\
    gradient_threshold self2 img (<[img := b]> s) = (Ok g2, <[img := b]> s) /\
    isolate_lines self1 img s = (Ok f1, <[img := b]> s) /\
    isolate_lines self2 img s = (Ok f2, <[img := b]> s) /\
    (forall i, elems c1 !! i = Some 1%Z -> elems c2 !! i = Some 1%Z) /\
    (forall i, elems g1 !! i = Some 1%R -> elems g2 !! i = Some 1%R) /\
    (forall i, elems f1 !! i = Some 1%Z -> elems f2 !! i = Some 1%Z) /\
    count_ones c1 <= count_ones c2 /\
    count_ones g1 <= count_ones g2 /\
    count_ones f1 <= count_ones f2.
Proof.
  intros Hsub Ha Hv.
  destruct (pipeline_valid self1 img s a Ha Hv)
    as (b & c1 & g1 & Heq & Hb & Hc1 & Hg1 & Hrun1 & Sc1 & Sg1 & _ & _).
  destruct (pipeline_valid self2 img s a Ha Hv)
    as (b' & c2 & g2 & Heq' & _ & Hc2 & Hg2 & Hrun2 & _ & _ & _ & _).
  cbn zeta in *.
  assert (b' = b) as ->.
  { rewrite Heq in Heq'. injection Heq' as E.
    apply (f_equal (fun m : store => m !! img)) in E.
    rewrite !lookup_insert_eq in E. congruence. }
  pose proof (equalized_from_valid a b Hv Hb) as Hvb.
  assert ((<[img:=b]> s) !! img = Some b) as Hlb by apply lookup_insert_eq.
  destruct (color_threshold_sub self1 self2 Hsub img _ b Hlb Hvb)
    as (m1 & m2 & E1 & E2 & Mc).
  assert (m1 = c1) as -> by congruence. assert (m2 = c2) as -> by congruence.
  destruct (gradient_threshold_sub self1 self2 Hsub img _ b Hlb Hvb)
    as (n1 & n2 & F1 & F2 & Mg).
  assert (n1 = g1) as -> by congruence. assert (n2 = g2) as -> by congruence.
  assert (length (elems c1) = length (elems g1)) as Hcg.
  { by rewrite (sized_length _ _ _ Sc1), (sized_length _ _ _ Sg1). }
  pose proof (final_mask_sub c1 c2 g1 g2 Hcg Mc Mg) as Mf.
  exists b, c1, c2, g1, g2. eexists _, _. split_and!; try done.
  - intros i. by apply (@mask_sub_lookup Z uint8).
  - intros i. by apply (@mask_sub_lookup R float64).
  - intros i. by apply (@mask_sub_lookup Z uint8).
  - by apply mask_sub_count.
  - by apply mask_sub_count.
  - by apply mask_sub_count.
Qed.

Lemma one_le_half_pi : (1 <= PI / 2)%R.
Proof. pose proof PI2_1. lra. Qed.

Lemma widening_keeps_pixels_witness :
  exists b c1 c2 g1 g2 f1 f2,
    color_threshold (cv2:=opencv_ref) narrow_config 0 (<[0 := b]> store0)
      = (Ok c1, <[0 := b]> store0) /\
    color_threshold (cv2:=opencv_ref) (__init__ None) 0 (<[0 := b]> store0)
      = (Ok c2, <[0 := b]> store0) /\
    gradient_threshold (cv2:=opencv_ref) narrow_config 0 (<[0 := b]> store0)
      = (Ok g1, <[0 := b]> store0) /\
    gradient_threshold (cv2:=opencv_ref) (__init__ None) 0 (<[0 := b]> store0)
      = (Ok g2, <[0 := b]> store0) /\
    isolate_lines (cv2:=opencv_ref) narrow_config 0 store0 = (Ok f1, <[0 := b]> store0) /\
    isolate_lines (cv2:=opencv_ref) (__init__ None) 0 store0
      = (Ok f2, <[0 := b]> store0) /\
    (forall i, elems c1 !! i = Some 1%Z -> elems c2 !! i = Some 1%Z) /\
    (forall i, elems g1 !! i = Some 1%R -> elems g2 !! i = Some 1%R) /\
    (forall i, elems f1 !! i = Some 1%Z -> elems f2 !! i = Some 1%Z) /\
    count_ones c1 <= count_ones c2 /\
    count_ones g1 <= count_ones g2 /\
    count_ones f1 <= count_ones f2.
Proof.
  refine (widening_keeps_pixels (cv2:=opencv_ref) narrow_config (__init__ None)
            0 store0 frame0 _ _ _).
  - pose proof one_le_half_pi.
    repeat split; cbn; first [lia | lra].
  - reflexivity.
  - prove_valid_frame.
Defined.

(** ** The union of the two selections *)

(** X12: on a valid frame the final mask has at least as many set pixels
    as the colour mask and as the gradient mask, and at most as many as the
    two together. *)
Theorem final_mask_count_bounds {cv2 : CV2} self img (s : store) a :
  s !! img = Some a -> valid_frame a ->
  exists b color_select grad_select selection,
    color_threshold self img (<[img := b]> s) = (Ok color_select, <[img := b]> s) /\
    gradient_threshold self img (<[img := b]> s) = (Ok grad_select, <[img := b]> s) /\
    isolate_lines self img s = (Ok selection, <[img := b]> s) /\
    count_ones color_select <= count_ones selection /\
    count_ones grad_select <= count_ones selection /\
    count_ones selection <= count_ones color_select + count_ones grad_select.
Proof.
  intros Ha Hv.
  destruct (pipeline_valid self img s a Ha Hv)
    as (b & c & g & _ & _ & Hc & Hg & Hrun & Sc & Sg & _ & _).
  exists b, c, g. eexists. split_and!; [done..| | |];
    unfold count_ones; rewrite final_mask_elems;
    apply (count_union (elems c) (elems g));
    by rewrite (sized_length _ _ _ Sc), (sized_length _ _ _ Sg).
Qed.

Lemma final_mask_count_bounds_witness :
  exists b color_select grad_select selection,
    color_threshold (cv2:=opencv_ref) (__init__ None) 0 (<[0 := b]> store0)
      = (Ok color_select, <[0 := b]> store0) /\
    gradient_threshold (cv2:=opencv_ref) (__init__ None) 0 (<[0 := b]> store0)
      = (Ok grad_select, <[0 := b]> store0) /\
    isolate_lines (cv2:=opencv_ref) (__init__ None) 0 store0
      = (Ok selection, <[0 := b]> store0) /\
    count_ones color_select <= count_ones selection /\
    count_ones grad_select <= count_ones selection /\
    count_ones selection <= count_ones color_select + count_ones grad_select.
Proof.
  refine (final_mask_count_bounds (cv2:=opencv_ref) (__init__ None) 0 store0 frame0 _ _).
  - reflexivity.
  - prove_valid_frame.
Defined.

Lemma final_equals_color (c : ndarray Z) (g : ndarray R) :
  binary c -> length (elems c) = length (elems g) ->
  set_ones (zeros_like c) (np_or (np_eq1 c) (np_eq1 g)) = c
  <-> forall i, elems g !! i = Some 1%R -> elems c !! i = Some 1%Z.
Proof.
  intros Hb Hlen.
  assert (set_ones (zeros_like c) (np_or (np_eq1 c) (np_eq1 g)) = c
          <-> elems (set_ones (zeros_like c) (np_or (np_eq1 c) (np_eq1 g))) = elems c)
    as ->.
  { split; [by intros ->|]. destruct c as [h w l]. cbn. intros E.
    unfold set_ones, zeros_like, np_map2, np_map in *. cbn in *. by rewrite E. }
  rewrite final_mask_elems. unfold binary in Hb. rewrite Forall_lookup in Hb.
  split.
  - intros E i Eg.
    destruct (elems c !! i) as [x|] eqn:Ec.
    + apply (f_equal (fun l => l !! i)) in E.
      rewrite lookup_zip_with, Ec, Eg in E. cbn -[eqb one zero] in E.
      rewrite eqb_refl, orb_true_r in E. by rewrite <- E.
    + apply lookup_lt_Some in Eg. apply lookup_ge_None in Ec. lia.
  - intros Hsub. apply list_eq. intros i. rewrite lookup_zip_with.
    destruct (elems c !! i) as [x|] eqn:Ec; [|done].
    destruct (elems g !! i) as [y|] eqn:Eg.
    + cbn -[eqb one zero]. f_equal.
      destruct (Hb i x Ec) as [-> | ->].
      * rewrite eqb_zero_one. cbn [orb].
        destruct (eqb y one) eqn:Ey; [|done].
        apply eqb_eq in Ey. subst y. specialize (Hsub i Eg).
        rewrite Ec in Hsub. by injection Hsub.
      * by rewrite eqb_refl.
    + apply lookup_lt_Some in Ec. apply lookup_ge_None in Eg. lia.
Qed.

(** X13: on a valid frame the final mask is the colour mask itself, sample
    for sample, exactly when every pixel set in the gradient mask is also
    set in the colour mask; in particular when the gradient selector
    selects nothing. *)
Theorem final_mask_is_color_mask {cv2 : CV2} self img (s : store) a :
  s !! img = Some a -> valid_frame a ->
  exists b color_select grad_select selection,
    color_threshold self img (<[img := b]> s) = (Ok color_select, <[img := b]> s) /\
    gradient_threshold self img (<[img := b]> s) = (Ok grad_select, <[img := b]> s) /\
    isolate_lines self img s = (Ok selection, <[img := b]> s) /\
    (selection = color_select <->
       forall i, elems grad_select !! i = Some 1%R -> elems color_select !! i = Some 1%Z) /\
    ((forall i, elems grad_select !! i <> Some 1%R) -> selection = color_select).
Proof.
  intros Ha Hv.
  destruct (pipeline_valid self img s a Ha Hv)
    as (b & c & g & _ & _ & Hc & Hg & Hrun & Sc & Sg & Bc & _).
  assert (length (elems c) = length (elems g)) as Hlen
    by (by rewrite (sized_length _ _ _ Sc), (sized_length _ _ _ Sg)).
  exists b, c, g. eexists. split_and!; [done..| |].
  - by apply final_equals_color.
  - intros Hnone. apply final_equals_color; [done..|].
    intros i Eg. by destruct (Hnone i).
Qed.

Lemma final_mask_is_color_mask_witness :
  exists b color_select grad_select selection,
    color_threshold (cv2:=opencv_ref) (__init__ None) 0 (<[0 := b]> store0)
      = (Ok color_select, <[0 := b]> store0) /\
    gradient_threshold (cv2:=opencv_ref) (__init__ None) 0 (<[0 := b]> store0)
      = (Ok grad_select, <[0 := b]> store0) /\
    isolate_lines (cv2:=opencv_ref) (__init__ None) 0 store0
      = (Ok selection, <[0 := b]> store0) /\
    (selection = color_select <->
       forall i, elems grad_select !! i = Some 1%R -> elems color_select !! i = Some 1%Z) /\
    ((forall i, elems grad_select !! i <> Some 1%R) -> selection = color_select).
Proof.
  refine (final_mask_is_color_mask (cv2:=opencv_ref) (__init__ None) 0 store0 frame0 _ _).
  - reflexivity.
  - prove_valid_frame.
Defined.

(** ** Channels are equalized one by one *)

(** X14: [eq_histogram] treats the channels independently: for two valid
    frames of the same size that agree on channel [c] (whatever their other
    channels hold), the equalized frames agree on channel [c]. *)
Theorem eq_histogram_channelwise {cv2 : CV2} img img' (s s' : store) a a' c :
  s !! img = Some a -> s' !! img' = Some a' ->
  valid_frame a -> valid_frame a' ->
  height a' = height a -> width a' = width a ->
  c < 3 -> chan c (pixels a') = chan c (pixels a) ->
  exists b b',
    eq_histogram img s = (Ok img, <[img := b]> s) /\
    eq_histogram img' s' = (Ok img', <[img' := b']> s') /\
    chan c (pixels b') = chan c (pixels b).
Proof.
  intros Ha Ha' Hv Hv' Eh Ew Hc Ec.
  pose proof Hv as (Hwf & Hch & Hh & Hw).
  pose proof Hv' as (Hwf' & Hch' & Hh' & Hw').
  destruct (eq_histogram_valid img s a Ha Hwf Hh Hw) as (b & Hrun & Hb); [lia|].
  destruct (eq_histogram_valid img' s' a' Ha' Hwf' Hh' Hw') as (b' & Hrun' & Hb'); [lia|].
  exists b, b'. split_and!; [done..|].
  destruct Hb as (_ & _ & _ & _ & Hchan). destruct Hb' as (_ & _ & _ & _ & Hchan').
  destruct (Hchan c Hc) as (e & He & ->).
  destruct (Hchan' c Hc) as (e' & He' & ->).
  rewrite Eh, Ew, Ec in He'. congruence.
Qed.

Lemma eq_histogram_channelwise_witness :
  exists b b',
    eq_histogram (cv2:=opencv_ref) 0 store0 = (Ok 0, <[0 := b]> store0) /\
    eq_histogram (cv2:=opencv_ref) 7 {[ 7 := frame0_red ]}
      = (Ok 7, <[7 := b']> {[ 7 := frame0_red ]}) /\
    chan 1 (pixels b') = chan 1 (pixels b).
Proof.
  refine (eq_histogram_channelwise (cv2:=opencv_ref) 0 7 store0 {[ 7 := frame0_red ]}
            frame0 frame0_red 1 _ _ _ _ _ _ _ _).
  - reflexivity.
  - reflexivity.
  - prove_valid_frame.
  - prove_valid_frame.
  - reflexivity.
  - reflexivity.
  - lia.
  - reflexivity.
Defined.

(** ** Re-thresholding a mask *)

(** X15: the output of [_within_threshold] is a mask that the range [1, 1]
    reproduces: thresholding the result once more with [1, 1] returns it
    unchanged, whatever the first range was. *)
Theorem within_threshold_rethreshold `{Dtype T} (array : ndarray T) (threshold : T * T) :
  _within_threshold (_within_threshold array threshold) (one, one)
  = _within_threshold array threshold.
Proof.
  rewrite !within_threshold_map. unfold np_map; cbn. f_equal.
  rewrite <- list_fmap_compose. apply list_fmap_ext. intros i v _. cbn.
  destruct (thresh1_binary threshold v) as [E|E]; rewrite E.
  - apply thresh1_zero, not_true_iff_false. rewrite in_range_le; cbn.
    intros [? _]. by apply (not_le_one_zero (T:=T)).
  - apply thresh1_one, in_range_le; cbn. split; apply le_refl.
Qed.

(** ** The selectors under any configuration *)

(** X16: the selectors read their ranges from the isolator they are called
    on: for every configuration, the colour mask is 1 at a pixel exactly
    when (the lightness sample is in [L_THRESHOLD] and the saturation
    sample in [S_THRESHOLD]) or the chrominance sample is in
    [B_THRESHOLD], and the gradient mask is 1 exactly when the magnitude is
    in [MAG_THRESHOLD] and the direction in [DIR_THRESHOLD]. *)
Theorem selectors_use_configuration {cv2 : CV2} self img (s : store) a :
  s !! img = Some a -> valid_frame a ->
  exists l_chan s_chan b_chan gray magnitude direction color_select grad_select,
    converted_channel img COLOR_BGR2LUV 0 s = (Ok l_chan, s) /\
    converted_channel img COLOR_BGR2HLS 2 s = (Ok s_chan, s) /\
    converted_channel img COLOR_BGR2Lab 2 s = (Ok b_chan, s) /\
    cvtColor_BGR2GRAY a = Ok gray /\
    _gradient_mag gray = Ok magnitude /\
    _gradient_dir gray = Ok direction /\
    color_threshold self img s = (Ok color_select, s) /\
    gradient_threshold self img s = (Ok grad_select, s) /\
    forall i, i < height a * width a ->
      exists l sa b m d,
        elems l_chan !! i = Some l /\ elems s_chan !! i = Some sa /\
        elems b_chan !! i = Some b /\
        elems magnitude !! i = Some m /\ elems direction !! i = Some d /\
        (elems color_select !! i = Some 1%Z <->
           ((fst (L_THRESHOLD self) <= l <= snd (L_THRESHOLD self))%Z /\
            (fst (S_THRESHOLD self) <= sa <= snd (S_THRESHOLD self))%Z) \/
           (fst (B_THRESHOLD self) <= b <= snd (B_THRESHOLD self))%Z) /\
        (elems grad_select !! i = Some 1%R <->
           (fst (MAG_THRESHOLD self) <= m <= snd (MAG_THRESHOLD self))%R /\
           (fst (DIR_THRESHOLD self) <= d <= snd (DIR_THRESHOLD self))%R).
Proof.
  intros Ha Hv.
  destruct (color_threshold_valid self img s a Ha Hv)
    as (l_chan & s_chan & b_chan & Hl & Hs & Hb & Sl & Ss & Sb & Hc).
  destruct (gradient_threshold_valid self img s a Ha Hv)
    as (gray & gx & gy & Hgray & _ & Hm & Hd & Sx & Sy & Hg).
  cbn zeta in *.
  exists l_chan, s_chan, b_chan, gray. eexists _, _, _, _.
  split_and!; [done..|].
  intros i Hi.
  destruct (sized_lookup _ _ _ i Sl Hi) as [l El].
  destruct (sized_lookup _ _ _ i Ss Hi) as [sa Es].
  destruct (sized_lookup _ _ _ i Sb Hi) as [b Eb].
  destruct (sized_lookup _ _ _ i Sx Hi) as [dx Ex].
  destruct (sized_lookup _ _ _ i Sy Hi) as [dy Ey].
  pose proof (magnitude_lookup _ _ i dx dy Ex Ey) as Em.
  pose proof (direction_lookup_at _ _ i dx dy Ex Ey) as Ed.
  exists l, sa, b, (sqrt (dx * dx + dy * dy)), (arctan2 (Rabs dy) (Rabs dx)).
  do 5 (split; [done|]).
  rewrite (color_mask_lookup self _ _ _ i l sa b El Es Eb).
  rewrite (gradient_mask_lookup self _ _ i _ _ Em Ed).
  split.
  - etrans; [apply (@Some_bit_one Z uint8)|].
    unfold color_rule. rewrite orb_true_iff, andb_true_iff, !in_range_le.
    cbn. tauto.
  - etrans; [apply (@Some_bit_one R float64)|].
    unfold gradient_rule. rewrite andb_true_iff, !in_range_le. reflexivity.
Qed.

Lemma selectors_use_configuration_witness :
  exists l_chan s_chan b_chan gray magnitude direction color_select grad_select,
    converted_channel (cv2:=opencv_ref) 0 COLOR_BGR2LUV 0 store0 = (Ok l_chan, store0) /\
    converted_channel (cv2:=opencv_ref) 0 COLOR_BGR2HLS 2 store0 = (Ok s_chan, store0) /\
    converted_channel (cv2:=opencv_ref) 0 COLOR_BGR2Lab 2 store0 = (Ok b_chan, store0) /\
    Ref.cvtColor_BGR2GRAY frame0 = Ok gray /\
    _gradient_mag (cv2:=opencv_ref) gray = Ok magnitude /\
    _gradient_dir (cv2:=opencv_ref) gray = Ok direction /\
    color_threshold (cv2:=opencv_ref) narrow_config 0 store0 = (Ok color_select, store0) /\
    gradient_threshold (cv2:=opencv_ref) narrow_config 0 store0 = (Ok grad_select, store0) /\
    forall i, i < 2 * 2 ->
      exists l sa b m d,
        elems l_chan !! i = Some l /\ elems s_chan !! i = Some sa /\
        elems b_chan !! i = Some b /\
        elems magnitude !! i = Some m /\ elems direction !! i = Some d /\
        (elems color_select !! i = Some 1%Z <->
           ((150 <= l <= 250)%Z /\ (120 <= sa <= 255)%Z) \/ (185 <= b <= 200)%Z) /\
        (elems grad_select !! i = Some 1%R <->
           (50 <= m <= 200)%R /\ (0 <= d <= 1)%R).
Proof.
  refine (selectors_use_configuration (cv2:=opencv_ref) narrow_config 0 store0 frame0 _ _).
  - reflexivity.
  - prove_valid_frame.
Defined.
